(** * broccoli-compile-modules: the incremental cache of [CompileModules]

    A shallow embedding of [index.js] (the caching version of the writer):
    the constructor with its four setters, and [CompileModules.prototype.write]
    with its planning loop, the bulk [container.write] and the read-back of
    the outputs into [this.cache].

    Conventions.
    - [this.cache] is a JavaScript object used as a map from file path to
      [{hash, content}]; it is a [gmap string CacheEntry].  File paths are
      assumed not to name a member of [Object.prototype].
    - The destination tree is a flat map from path to file content, so
      [mkdirp] has nothing to do.
    - What the libraries do ([readTree], [helpers.multiGlob],
      [fs.statSync] with [helpers.hashStats], [container.write],
      [path.join], [helpers.assertAbsolutePaths], the [formatters] table)
      is not part of this repository; it is a parameter of the model.
    - A thrown exception leaves the mutations done so far in place, so a
      computation returns the state it reached together with its result. *)

From Stdlib Require Import ZArith.
From stdpp Require Import gmap strings list fin_maps.

Set Warnings "-register-all".
Local Open Scope string_scope.
Local Open Scope list_scope.

(** ** JavaScript values, as far as the constructor inspects them *)

Inductive JsVal :=
| JUndefined
| JNull
| JBool (b : bool)
| JNumber (n : Z)
| JNaN
| JString (s : string)
| JArray (elems : list JsVal)
| JObject (tag : string)
| JFunction (instance : JsVal)    (* [instance] is what [new f()] evaluates to *)
| JNotConstructor.                (* a function for which [new f()] throws *)

Inductive JsType :=
| TUndefined | TObject | TBoolean | TNumber | TString | TFunction.

Global Instance JsType_eq_dec : EqDecision JsType.
Proof. solve_decision. Defined.

(** The [typeof] operator. *)
Definition typeof (v : JsVal) : JsType :=
  match v with
  | JUndefined => TUndefined
  | JNull => TObject
  | JBool _ => TBoolean
  | JNumber _ | JNaN => TNumber
  | JString _ => TString
  | JArray _ | JObject _ => TObject
  | JFunction _ | JNotConstructor => TFunction
  end.

(** [ToBoolean]: what [!v] negates. *)
Definition truthy (v : JsVal) : bool :=
  match v with
  | JUndefined | JNull | JNaN => false
  | JBool b => b
  | JNumber n => negb (n =? 0)%Z
  | JString s => negb (String.eqb s "")
  | JArray _ | JObject _ | JFunction _ | JNotConstructor => true
  end.

(** [Array.isArray] *)
Definition isArray (v : JsVal) : bool :=
  match v with JArray _ => true | _ => false end.

(** ** Errors *)

Inductive Error :=
| ExpectedInputTree (got : JsVal)
| ExpectedInputGlobs (got : JsVal)
| PathNotAbsolute (got : JsVal)
| NoBuiltinFormatter (name : string)
| NotAConstructor (name : string)
| ExpectedFormatterObject (got : JsVal)
| ReadTreeRejected
| GlobFailed
| StatFailed (path : string)
| TransformFailed
| ReadFailed (path : string)
| NoCacheEntry (filepath : string).

(** ** The cache *)

Record CacheEntry := { hash : string; content : option string }.

Abbreviation Cache := (gmap string CacheEntry).
Abbreviation Disk := (gmap string string).

(** ** Construction *)

Record Options := {
  opt_inputFiles : JsVal;
  opt_output : JsVal;
  opt_formatter : JsVal
}.

Record Stage := {
  inputTree : JsVal;
  inputFiles : list JsVal;
  output : JsVal;
  formatter : JsVal;
  cache : Cache
}.

Section Construction.
(** [helpers.assertAbsolutePaths([output])] returns normally. *)
Variable assertAbsolutePaths : JsVal -> bool.
(** Property lookup in the [formatters] table of es6-module-transpiler. *)
Variable formatters : string -> JsVal.

Definition setInputTree (tree : JsVal) : Error + JsVal :=
  match tree with
  | JUndefined | JNull => inl (ExpectedInputTree tree)
  | _ => inr tree
  end.

Definition setInputFiles (files : JsVal) : Error + list JsVal :=
  match files with
  | JArray globs => inr globs
  | _ => inl (ExpectedInputGlobs files)
  end.

Definition setOutput (out : JsVal) : Error + JsVal :=
  if assertAbsolutePaths out then inr out else inl (PathNotAbsolute out).

(** The formatter after [if (!formatter) formatter = formatters.DEFAULT]. *)
Definition defaulted (fmt : JsVal) : JsVal :=
  if truthy fmt then fmt else formatters "DEFAULT".

(** The [typeof formatter === 'string'] block: the table entry must be a
    function, and [new formatter()] throws for one that is no
    constructor. *)
Definition resolve (fmt : JsVal) : Error + JsVal :=
  match fmt with
  | JString formatterName =>
      match formatters formatterName with
      | JFunction instance => inr instance
      | JNotConstructor => inl (NotAConstructor formatterName)
      | _ => inl (NoBuiltinFormatter formatterName)
      end
  | _ => inr fmt
  end.

Definition setFormatter (fmt : JsVal) : Error + JsVal :=
  match resolve (defaulted fmt) with
  | inl e => inl e
  | inr fmt' =>
      if decide (typeof fmt' = TObject) then inr fmt'
      else inl (ExpectedFormatterObject fmt')
  end.

Definition CompileModules (tree : JsVal) (options : Options) : Error + Stage :=
  match setInputTree tree with
  | inl e => inl e
  | inr tree' =>
  match setInputFiles (opt_inputFiles options) with
  | inl e => inl e
  | inr globs =>
  match setOutput (opt_output options) with
  | inl e => inl e
  | inr out =>
  match setFormatter (opt_formatter options) with
  | inl e => inl e
  | inr fmt =>
      inr {| inputTree := tree'; inputFiles := globs; output := out;
             formatter := fmt; cache := ∅ |}
  end end end end.

(** The arguments the constructor rejects. *)
Definition missing_tree (tree : JsVal) : Prop :=
  tree = JUndefined \/ tree = JNull.

(** The formatter half is written from the words of the contract, not
    from the setter.  The values that count as no formatter given: *)
Definition falsy (v : JsVal) : Prop :=
  v = JUndefined \/ v = JNull \/ v = JBool false \/
  v = JNumber 0 \/ v = JNaN \/ v = JString "".

(** The formatter asked for: the option, or the default of the table
    when none is given. *)
Inductive asked_formatter (fmt : JsVal) : JsVal -> Prop :=
| asked_given : ~ falsy fmt -> asked_formatter fmt fmt
| asked_default : falsy fmt -> asked_formatter fmt (formatters "DEFAULT").

(** [name] has a built-in formatter: the table holds under it a function
    that [new] makes an instance of. *)
Definition builtin_formatter (name : string) (instance : JsVal) : Prop :=
  formatters name = JFunction instance.

(** A name is asked for and it has no built-in formatter. *)
Definition unknown_formatter_name (fmt : JsVal) : Prop :=
  exists name,
    asked_formatter fmt (JString name) /\
    forall instance, ~ builtin_formatter name instance.

(** What is asked for, or the instance made for the name asked for, is
    not of type object. *)
Definition formatter_not_object (fmt : JsVal) : Prop :=
  exists v,
    asked_formatter fmt v /\
    ((exists name instance,
        v = JString name /\ builtin_formatter name instance /\
        typeof instance <> TObject) \/
     ((forall name, v <> JString name) /\ typeof v <> TObject)).

Definition invalid_arguments (tree : JsVal) (options : Options) : Prop :=
  missing_tree tree \/
  isArray (opt_inputFiles options) = false \/
  assertAbsolutePaths (opt_output options) = false \/
  unknown_formatter_name (opt_formatter options) \/
  formatter_not_object (opt_formatter options).
End Construction.

(** ** Computations of a pass

    A pass mutates [this.cache] and the destination tree, fills the module
    container and may throw.  [st_trace] logs the calls made to the
    collaborators, in order; [EvReplay] stands for the [mkdirp] and
    [fs.writeFileSync] of a replay and records the identity replayed. *)

Inductive Event :=
| EvStat (path : string)
| EvReplay (filepath dest : string) (data : option string)
| EvGetModule (filepath : string)
| EvContainerWrite (outputPath : string) (modules : list string)
| EvSetContent (filepath content : string).

Record State := {
  st_cache : Cache;
  st_disk : Disk;
  st_container : list string;
  st_trace : list Event
}.

Definition M (A : Type) : Type := State -> State * (Error + A).

Global Instance M_ret : MRet M := fun A a s => (s, inr a).
Global Instance M_bind : MBind M := fun A B k m s =>
  match m s with
  | (s', inl e) => (s', inl e)
  | (s', inr a) => k a s'
  end.

Definition throw {A} (e : Error) : M A := fun s => (s, inl e).
Definition gets {A} (f : State -> A) : M A := fun s => (s, inr (f s)).
Definition modify (f : State -> State) : M unit := fun s => (f s, inr tt).

Definition with_cache (f : Cache -> Cache) (s : State) : State :=
  {| st_cache := f (st_cache s); st_disk := st_disk s;
     st_container := st_container s; st_trace := st_trace s |}.
Definition with_disk (f : Disk -> Disk) (s : State) : State :=
  {| st_cache := st_cache s; st_disk := f (st_disk s);
     st_container := st_container s; st_trace := st_trace s |}.
Definition with_container (f : list string -> list string) (s : State) : State :=
  {| st_cache := st_cache s; st_disk := st_disk s;
     st_container := f (st_container s); st_trace := st_trace s |}.
Definition log (e : Event) : M unit := modify (fun s =>
  {| st_cache := st_cache s; st_disk := st_disk s;
     st_container := st_container s; st_trace := st_trace s ++ [e] |}).

(** [for (...) body] and [forEach]: stop at the first exception. *)
Fixpoint for_each {A} (body : A -> M unit) (l : list A) : M unit :=
  match l with
  | [] => mret tt
  | x :: l' => body x ;; for_each body l'
  end.

(** ['' + data], which is what [fs.writeFileSync] of Node 0.10 writes for
    data that is not a buffer. *)
Definition to_string (data : option string) : string :=
  match data with Some s => s | None => "undefined" end.

(** ** The world of a pass *)

Record World := {
  (** the directory [readTree(this.inputTree)] resolves to, if it does *)
  readTree : option string;
  (** [helpers.multiGlob(globs, {cwd: srcDir})]; [None] when it throws *)
  globInputs : list JsVal -> string -> option (list string);
  (** [helpers.hashStats(fs.statSync(path))]; [None] when the stat throws *)
  hashStats : string -> option string;
  (** [container.write(outputPath)] on the modules got so far: the
      destination tree afterwards and whether the call returned normally *)
  containerWrite : list string -> string -> Disk -> Disk * bool;
  (** [helpers.multiGlob(globs, {cwd: destDir, nomount: false})] *)
  globOutputs : list JsVal -> string -> Disk -> option (list string)
}.

Section Write.
Variable path_join : list string -> string.
Variable w : World.
(** [this.inputFiles] and [this.output] *)
Variable this_inputFiles : list JsVal.
Variable this_output : string.
Variable destDir : string.

Definition statSync_hash (path : string) : M string :=
  log (EvStat path) ;;
  match hashStats w path with
  | Some h => mret h
  | None => throw (StatFailed path)
  end.

Definition writeFileSync (filepath dest : string) (data : option string) : M unit :=
  log (EvReplay filepath dest data) ;;
  modify (with_disk <[dest := to_string data]>).

Definition getModule (filepath : string) : M unit :=
  log (EvGetModule filepath) ;;
  modify (with_container (fun ms => ms ++ [filepath])).

Definition set_hash (h : string) (c : CacheEntry) : CacheEntry :=
  {| hash := h; content := content c |}.
Definition set_content (data : string) (c : CacheEntry) : CacheEntry :=
  {| hash := hash c; content := Some data |}.

(** The body of the [for] loop of [write]. *)
Definition plan_file (srcDir filepath : string) : M unit :=
  cache ← gets (fun s => st_cache s !! filepath);
  h ← statSync_hash (path_join [srcDir; filepath]);
  match cache with
  | Some c =>
      if String.eqb (hash c) h then
        let dest := path_join [destDir; this_output; filepath] in
        writeFileSync filepath dest (content c)
      else
        modify (with_cache (alter (set_hash h) filepath)) ;;
        getModule filepath
  | None =>
      modify (with_cache <[filepath := {| hash := h; content := None |}]>) ;;
      getModule filepath
  end.

Definition plan (srcDir : string) (files : list string) : M unit :=
  for_each (plan_file srcDir) files.

Definition container_write (outputPath : string) : M unit :=
  ms ← gets st_container;
  log (EvContainerWrite outputPath ms) ;;
  d ← gets st_disk;
  let (d', ok) := containerWrite w ms outputPath d in
  modify (with_disk (fun _ => d')) ;;
  if ok then mret tt else throw TransformFailed.

Definition readFileSync (path : string) : M string :=
  d ← gets st_disk;
  match d !! path with
  | Some data => mret data
  | None => throw (ReadFailed path)
  end.

(** The body of [outputFiles.forEach]:
    [this.cache[filepath].content = fs.readFileSync(...)].  As V8 runs it,
    the right-hand side is evaluated before the store finds that there is
    no entry to assign to; which of the two errors comes first matters to
    no statement below. *)
Definition read_back (outputPath filepath : string) : M unit :=
  data ← readFileSync (path_join [outputPath; filepath]);
  entry ← gets (fun s => st_cache s !! filepath);
  match entry with
  | Some _ =>
      modify (with_cache (alter (set_content data) filepath)) ;;
      log (EvSetContent filepath data)
  | None => throw (NoCacheEntry filepath)
  end.

Definition glob_outputs : M (list string) :=
  d ← gets st_disk;
  match globOutputs w this_inputFiles destDir d with
  | Some files => mret files
  | None => throw GlobFailed
  end.

Definition reconcile (outputPath : string) : M unit :=
  outputFiles ← glob_outputs;
  for_each (read_back outputPath) outputFiles.

Definition glob_inputs (srcDir : string) : M (list string) :=
  match globInputs w this_inputFiles srcDir with
  | Some files => mret files
  | None => throw GlobFailed
  end.

Definition read_tree : M string :=
  match readTree w with
  | Some srcDir => mret srcDir
  | None => throw ReadTreeRejected
  end.

(** [CompileModules.prototype.write] *)
Definition write : M unit :=
  srcDir ← read_tree;
  files ← glob_inputs srcDir;
  plan srcDir files ;;
  let outputPath := path_join [destDir; this_output] in
  container_write outputPath ;;
  reconcile outputPath.

(** A pass starts with a new, empty container. *)
Definition start (c : Cache) (d : Disk) : State :=
  {| st_cache := c; st_disk := d; st_container := []; st_trace := [] |}.

Definition run_pass (c : Cache) (d : Disk) : State * (Error + unit) :=
  write (start c d).

(** The state in which the read-back starts. *)
Definition transformed (sp : State) (d' : Disk) : State :=
  {| st_cache := st_cache sp; st_disk := d';
     st_container := st_container sp;
     st_trace := st_trace sp ++
       [EvContainerWrite (path_join [destDir; this_output]) (st_container sp)] |}.

(** The entry of [f] stores the fingerprint the source file has now. *)
Definition up_to_date (srcDir f : string) (c : Cache) : Prop :=
  exists e, c !! f = Some e /\ hashStats w (path_join [srcDir; f]) = Some (hash e).
End Write.

(** ** A sequence of passes of one stage

    Each pass has its own world and destination directory; the cache is
    what the passes share, and it survives a pass that throws. *)

Record Pass := {
  pass_world : World;
  pass_destDir : string;
  pass_disk : Disk
}.

Definition run_passes (path_join : list string -> string)
    (this_inputFiles : list JsVal) (this_output : string)
    (passes : list Pass) (c : Cache) : Cache :=
  foldl (fun c p =>
           st_cache (run_pass path_join (pass_world p) this_inputFiles
                       this_output (pass_destDir p) c (pass_disk p)).1)
        c passes.

(** ** Classification of the identities of a pass, read off the trace

    An identity is replayed when its cached content is written to the
    destination, recomputed when it is handed to the container. *)

Definition replayed (t : list Event) : list string :=
  omap (fun e => match e with EvReplay f _ _ => Some f | _ => None end) t.

Definition recomputed (t : list Event) : list string :=
  omap (fun e => match e with EvGetModule f => Some f | _ => None end) t.

(** The identities whose cached content the read-back assigned. *)
Definition reconciled (t : list Event) : list string :=
  omap (fun e => match e with EvSetContent f _ => Some f | _ => None end) t.

Definition is_planning_event (e : Event) : Prop :=
  match e with
  | EvStat _ | EvReplay _ _ _ | EvGetModule _ => True
  | _ => False
  end.

Definition is_read_back_event (e : Event) : Prop :=
  match e with EvSetContent _ _ => True | _ => False end.

Definition container_writes (t : list Event) : list string :=
  omap (fun e => match e with EvContainerWrite p _ => Some p | _ => None end) t.

(** ** Relations that every step of a computation respects

    [respects proj R m]: running [m] takes the component [proj] of the
    state to one related to it by [R], whether [m] returns or throws. *)

Definition respects {X A} (proj : State -> X) (R : relation X) (m : M A) : Prop :=
  forall s, R (proj s) (proj (m s).1).

(** The trace only grows, by events satisfying [P]. *)
Definition grows_by (P : Event -> Prop) : relation (list Event) :=
  fun t t' => exists u, t' = t ++ u /\ Forall P u.

(** No entry of the cache is removed. *)
Definition keeps_entries : relation Cache :=
  fun c c' => forall k, is_Some (c !! k) -> is_Some (c' !! k).

(** Every entry is kept with its hash. *)
Definition keeps_hashes : relation Cache :=
  fun c c' => forall k e, c !! k = Some e ->
    exists e', c' !! k = Some e' /\ hash e' = hash e.

(** The entries outside [keys] stay as they are. *)
Definition same_outside (keys : list string) : relation Cache :=
  fun c c' => forall k, k ∉ keys -> c' !! k = c !! k.

(** ** A concrete world, for examples

    [posix_join] follows [path.join] of Node on POSIX: the non-empty
    arguments joined by a slash and normalised. *)

Definition slash : Ascii.ascii := Ascii.ascii_of_nat 47.

Fixpoint segments (s : string) : list string :=
  match s with
  | EmptyString => [""]
  | String c s' =>
      if Ascii.eqb c slash then "" :: segments s'
      else match segments s' with
           | seg :: rest => String c seg :: rest
           | [] => [String c ""]
           end
  end.

(** One step of normalisation; [stack] holds the segments kept so far,
    last first. *)
Definition push_segment (absolute : bool) (stack : list string) (seg : string)
  : list string :=
  if String.eqb seg "" || String.eqb seg "." then stack
  else if String.eqb seg ".." then
    match stack with
    | top :: below => if String.eqb top ".." then seg :: stack else below
    | [] => if absolute then [] else [seg]
    end
  else seg :: stack.

Definition is_absolute (p : string) : bool :=
  match p with String c _ => Ascii.eqb c slash | EmptyString => false end.

Definition ends_with_slash (p : string) : bool :=
  match last (segments p) with Some "" => true | _ => false end.

Definition normalize (p : string) : string :=
  let absolute := is_absolute p in
  let kept := rev (foldl (push_segment absolute) [] (segments p)) in
  let body := String.concat "/" kept in
  let body := if String.eqb body "" && negb absolute then "." else body in
  let body := if negb (String.eqb body "") && ends_with_slash p
              then body +:+ "/" else body in
  if absolute then "/" +:+ body else body.

Definition posix_join (parts : list string) : string :=
  let parts := filter (fun p => p <> "") parts in
  match parts with
  | [] => "."
  | _ => normalize (String.concat "/" parts)
  end.

(** The arguments an everyday use passes: the absolute-path assertion on
    strings, and a table with the bundle and CommonJS formatters. *)
Definition absolute_string (v : JsVal) : bool :=
  match v with JString p => is_absolute p | _ => false end.

Definition builtin_formatters (name : string) : JsVal :=
  if String.eqb name "DEFAULT" then JString "bundle"
  else if String.eqb name "bundle" then JFunction (JObject "BundleFormatter")
  else if String.eqb name "commonjs" then JFunction (JObject "CommonJSFormatter")
  else JUndefined.

(** The same options with another formatter. *)
Definition options_with (fmt : JsVal) : Options :=
  {| opt_inputFiles := JArray [JString "*.js"];
     opt_output := JString "/";
     opt_formatter := fmt |}.

Definition options_js : Options :=
  {| opt_inputFiles := JArray [JString "*.js"];
     opt_output := JString "/";
     opt_formatter := JUndefined |}.

(** A source tree given by the hashes of its files, a transform that
    compiles every module it was given to a file of its own, and a glob
    that returns the candidates present under [cwd]. *)

Definition lookup_hash (stats : list (string * string)) (path : string)
  : option string :=
  (fun r => snd (snd r)) <$> list_find (fun kv => fst kv = path) stats.

Definition compile_each (ms : list string) (outputPath : string) (d : Disk)
  : Disk * bool :=
  (foldl (fun d m => <[posix_join [outputPath; m] := "compiled " +:+ m]> d) d ms,
   true).

Definition glob_present (candidates : list string) (cwd : string) (d : Disk)
  : option (list string) :=
  match filter (fun f => is_Some (d !! posix_join [cwd; f])) candidates with
  | [] => None
  | files => Some files
  end.

Definition example_world (stats : list (string * string))
    (inputs outputs : list string)
    (transform : list string -> string -> Disk -> Disk * bool) : World :=
  {| readTree := Some "/src";
     globInputs := fun _ _ => Some inputs;
     hashStats := lookup_hash stats;
     containerWrite := transform;
     globOutputs := fun _ => glob_present outputs |}.

(** Two modules, each compiled to its own file directly under the
    destination directory ([output] is ["/"]). *)
Definition world_ab : World :=
  example_world [("/src/a.js", "ha"); ("/src/b.js", "hb")]
    ["a.js"; "b.js"] ["a.js"; "b.js"] compile_each.

(** One module only. *)
Definition world_a : World :=
  example_world [("/src/a.js", "ha")] ["a.js"] ["a.js"] compile_each.

(** [world_a] with a transform that throws. *)
Definition compile_throws (ms : list string) (outputPath : string) (d : Disk)
  : Disk * bool := (d, false).

Definition world_a_throwing : World :=
  example_world [("/src/a.js", "ha")] ["a.js"] ["a.js"] compile_throws.

(** [world_ab] after [b.js] has vanished from the source tree while the
    glob still lists it. *)
Definition world_b_vanished : World :=
  example_world [("/src/a.js", "ha")]
    ["a.js"; "b.js"] ["a.js"; "b.js"] compile_each.

(** Entries for [a.js]: as the read-back leaves it, as the loop leaves it
    when the pass stops before the read-back, and as an older version of
    the file left it. *)
Definition entry_a : CacheEntry :=
  {| hash := "ha"; content := Some "compiled a.js" |}.
Definition entry_a_no_content : CacheEntry :=
  {| hash := "ha"; content := None |}.
Definition entry_a_old : CacheEntry :=
  {| hash := "ha0"; content := Some "compiled old a.js" |}.

(** [compile_each], throwing when the container is empty as the
    container of the transpiler does. *)
Definition compile_each_strict (ms : list string) (outputPath : string)
    (d : Disk) : Disk * bool :=
  match ms with
  | [] => (d, false)
  | _ => compile_each ms outputPath d
  end.

Definition world_ab_strict : World :=
  example_world [("/src/a.js", "ha"); ("/src/b.js", "hb")]
    ["a.js"; "b.js"] ["a.js"; "b.js"] compile_each_strict.

(** A transform that merges the modules it was given into the output of
    the first one, so that the others have no output of their own; it
    throws on an empty container too. *)
Definition compile_merged (ms : list string) (outputPath : string) (d : Disk)
  : Disk * bool :=
  match ms with
  | [] => (d, false)
  | m :: _ =>
      (<[posix_join [outputPath; m] := "compiled " +:+ String.concat "+" ms]> d,
       true)
  end.

Definition world_merged : World :=
  example_world [("/src/a.js", "ha"); ("/src/b.js", "hb")]
    ["a.js"; "b.js"] ["a.js"; "b.js"] compile_merged.

(** A transform that writes a helper file next to the compiled modules;
    the glob over the destination matches it. *)
Definition compile_with_helpers (ms : list string) (outputPath : string)
    (d : Disk) : Disk * bool :=
  (<[posix_join [outputPath; "helpers.js"] := "helpers"]>
     (compile_each ms outputPath d).1,
   true).

Definition world_helpers : World :=
  example_world [("/src/a.js", "ha")]
    ["a.js"] ["a.js"; "helpers.js"] compile_with_helpers.

Definition globs_js : list JsVal := [JString "*.js"].

Definition pass_ab := run_pass posix_join world_ab globs_js "/" "/dest".
Definition pass_merged := run_pass posix_join world_merged globs_js "/" "/dest".
Definition pass_ab_strict :=
  run_pass posix_join world_ab_strict globs_js "/" "/dest".
Definition pass_helpers := run_pass posix_join world_helpers globs_js "/" "/dest".

(** The cache and the destination a first pass leaves in [world_ab]. *)
Definition cache_ab : Cache := st_cache (pass_ab ∅ ∅).1.
Definition disk_ab : Disk := st_disk (pass_ab ∅ ∅).1.

(** ** The rest of [index.js]

    The exported factory, and the [write] of the version without a cache
    that the file also holds: every input file goes to the container and
    [this.cache] does not exist. *)

Definition compileModules (assertAbsolutePaths : JsVal -> bool)
    (formatters : string -> JsVal) (tree : JsVal) (options : Options)
  : Error + Stage :=
  CompileModules assertAbsolutePaths formatters tree options.

Section WritePlain.
Variable path_join : list string -> string.
Variable w : World.
Variable this_inputFiles : list JsVal.
Variable this_output : string.
Variable destDir : string.

Definition write_plain : M unit :=
  srcDir ← read_tree w;
  files ← glob_inputs w this_inputFiles srcDir;
  for_each getModule files ;;
  container_write w (path_join [destDir; this_output]).
End WritePlain.

(** ** More to read off a trace and a cache *)

(** The paths handed to [fs.statSync], and the calls of [container.write]
    with their modules. *)
Definition stats (t : list Event) : list string :=
  omap (fun e => match e with EvStat p => Some p | _ => None end) t.

Definition transform_calls (t : list Event) : list (string * list string) :=
  omap (fun e => match e with
                 | EvContainerWrite p ms => Some (p, ms)
                 | _ => None
                 end) t.

Section Fresh.
Variable path_join : list string -> string.
Variable w : World.

(** The test of the loop body: there is an entry and it stores the
    fingerprint the file has now. *)
Definition is_fresh (srcDir : string) (c : Cache) (f : string) : bool :=
  match c !! f, hashStats w (path_join [srcDir; f]) with
  | Some e, Some h => String.eqb (hash e) h
  | _, _ => false
  end.
End Fresh.

(** No content is set or changed: an entry that was there keeps its
    content, an entry that was not has none. *)
Definition keeps_content : relation Cache :=
  fun c c' => forall k,
    match c !! k with
    | Some e => exists e', c' !! k = Some e' /\ content e' = content e
    | None => forall e', c' !! k = Some e' -> content e' = None
    end.

(** The same identities have an entry. *)
Definition same_keys : relation Cache :=
  fun c c' => dom c' = dom c.

(** ** More concrete worlds and caches *)

(** [world_ab] after [a.js] was edited and [c.js] added. *)
Definition world_abc_edited : World :=
  example_world [("/src/a.js", "ha2"); ("/src/b.js", "hb"); ("/src/c.js", "hc")]
    ["a.js"; "b.js"; "c.js"] ["a.js"; "b.js"; "c.js"] compile_each.

(** A destination that holds a file of its own. *)
Definition disk_with_notes : Disk := {[ "/dest/notes.txt" := "notes" ]}.


(** The cache of [world_ab] after [a.js] was edited. *)
Definition cache_a_edited : Cache := <[ "a.js" := entry_a_old ]> cache_ab.

(** * Facts about a pass *)

(** ** The concrete world at work *)

Example posix_join_dest : posix_join ["/dest"; "/"; "lib/a.js"] = "/dest/lib/a.js".
Proof. vm_compute. reflexivity. Qed.
Example posix_join_out : posix_join ["/dest"; "/"] = "/dest/".
Proof. vm_compute. reflexivity. Qed.
Example posix_join_sub : posix_join ["/dest"; "/out"] = "/dest/out".
Proof. vm_compute. reflexivity. Qed.
Example posix_join_up : posix_join ["/dest/out"; "../a.js"] = "/dest/a.js".
Proof. vm_compute. reflexivity. Qed.
Example posix_join_twice :
  posix_join [posix_join ["/dest"; "/"]; "a.js"] = "/dest/a.js".
Proof. vm_compute. reflexivity. Qed.

Example pass_ab_cold :
  let r := pass_ab ∅ ∅ in
  r.2 = inr tt /\
  recomputed (st_trace r.1) = ["a.js"; "b.js"] /\
  replayed (st_trace r.1) = [] /\
  st_cache r.1 !! "a.js" = Some {| hash := "ha"; content := Some "compiled a.js" |} /\
  st_disk r.1 !! "/dest/b.js" = Some "compiled b.js".
Proof. vm_compute. repeat split. Qed.

(** ** Relations respected by the combinators *)

Section Respects.
Context {X : Type} (proj : State -> X) (R : relation X) `{!PreOrder R}.

Lemma respects_ret {A} (a : A) : respects proj R (mret a).
Proof. intros s. simpl. reflexivity. Qed.

Lemma respects_throw {A} (e : Error) : respects proj R (@throw A e).
Proof. intros s. simpl. reflexivity. Qed.

Lemma respects_gets {A} (f : State -> A) : respects proj R (gets f).
Proof. intros s. simpl. reflexivity. Qed.

Lemma respects_modify (f : State -> State) :
  (forall s, R (proj s) (proj (f s))) -> respects proj R (modify f).
Proof. intros Hf s. apply Hf. Qed.

Lemma respects_bind {A B} (m : M A) (k : A -> M B) :
  respects proj R m -> (forall a, respects proj R (k a)) ->
  respects proj R (m ≫= k).
Proof.
  intros Hm Hk s. unfold mbind, M_bind. specialize (Hm s).
  destruct (m s) as [s' [e|a]]; simpl in *; [done|].
  etransitivity; [exact Hm | apply Hk].
Qed.

Lemma respects_for_each_in {A} (body : A -> M unit) (l : list A) :
  (forall x, x ∈ l -> respects proj R (body x)) ->
  respects proj R (for_each body l).
Proof.
  induction l as [|x l IH]; intros Hb; simpl.
  - apply respects_ret.
  - apply respects_bind; [apply Hb; left|].
    intros _. apply IH. intros y Hy. apply Hb. by right.
Qed.

Lemma respects_for_each {A} (body : A -> M unit) (l : list A) :
  (forall x, respects proj R (body x)) -> respects proj R (for_each body l).
Proof.
  intros Hb. induction l as [|x l IH]; simpl.
  - apply respects_ret.
  - apply respects_bind; auto.
Qed.
End Respects.

Global Instance grows_by_preorder P : PreOrder (grows_by P).
Proof.
  split.
  - intros t. exists []. by rewrite app_nil_r.
  - intros t1 t2 t3 [u [-> Hu]] [v [-> Hv]]. exists (u ++ v).
    rewrite app_assoc. split; [done | by apply Forall_app].
Qed.

Global Instance keeps_entries_preorder : PreOrder keeps_entries.
Proof. split; [by intros c k | intros c1 c2 c3 H12 H23 k Hk; auto]. Qed.

Global Instance keeps_hashes_preorder : PreOrder keeps_hashes.
Proof.
  split.
  - intros c k e He. eauto.
  - intros c1 c2 c3 H12 H23 k e He.
    destruct (H12 k e He) as [e2 [He2 Hh2]].
    destruct (H23 k e2 He2) as [e3 [He3 Hh3]].
    exists e3. split; [done | congruence].
Qed.

Global Instance same_outside_preorder keys : PreOrder (same_outside keys).
Proof.
  split; [by intros c k | intros c1 c2 c3 H12 H23 k Hk].
  by rewrite H23, H12.
Qed.


Lemma keeps_entries_insert (c : Cache) k e : keeps_entries c (<[k := e]> c).
Proof.
  intros k' Hk'. rewrite lookup_insert. by case_decide.
Qed.

Lemma keeps_entries_alter (c : Cache) g k : keeps_entries c (alter g k c).
Proof.
  intros k' Hk'. rewrite lookup_alter. case_decide; [|done].
  subst k'. by rewrite fmap_is_Some.
Qed.

Lemma keeps_hashes_set_content (c : Cache) data k :
  keeps_hashes c (alter (set_content data) k c).
Proof.
  intros k' e He. rewrite lookup_alter. case_decide; [subst k'|eauto].
  rewrite He. simpl. eauto.
Qed.

Lemma same_outside_insert keys (c : Cache) k e :
  k ∈ keys -> same_outside keys c (<[k := e]> c).
Proof.
  intros Hk k' Hk'. apply lookup_insert_ne. by intros ->.
Qed.

Lemma same_outside_alter keys (c : Cache) g k :
  k ∈ keys -> same_outside keys c (alter g k c).
Proof.
  intros Hk k' Hk'. apply lookup_alter_ne. by intros ->.
Qed.

Lemma replayed_app t u : replayed (t ++ u) = replayed t ++ replayed u.
Proof. apply omap_app. Qed.
Lemma recomputed_app t u : recomputed (t ++ u) = recomputed t ++ recomputed u.
Proof. apply omap_app. Qed.
Lemma reconciled_app t u : reconciled (t ++ u) = reconciled t ++ reconciled u.
Proof. apply omap_app. Qed.
Lemma container_writes_app t u :
  container_writes (t ++ u) = container_writes t ++ container_writes u.
Proof. apply omap_app. Qed.

Lemma read_back_events_unclassified u :
  Forall is_read_back_event u ->
  replayed u = [] /\ recomputed u = [] /\ container_writes u = [].
Proof.
  induction 1 as [|e u He _ IH]; [done|].
  destruct e; simpl in *; done.
Qed.

Lemma planning_events_write_nothing u :
  Forall is_planning_event u ->
  container_writes u = [] /\ reconciled u = [].
Proof.
  induction 1 as [|e u He _ IH]; [done|].
  destruct e; simpl in *; done.
Qed.

Lemma grows_by_snoc (P : Event -> Prop) t e : P e -> grows_by P t (t ++ [e]).
Proof. intros He. exists [e]. split; [done | by constructor]. Qed.

(** ** Tactics *)

Ltac respects_step :=
  match goal with
  | |- respects _ _ (mret _) => apply respects_ret
  | |- respects _ _ (throw _) => apply respects_throw
  | |- respects _ _ (gets _) => apply respects_gets
  | |- respects _ _ (_ ≫= _) => apply respects_bind
  | |- respects _ _ (for_each _ _) => apply respects_for_each
  | |- respects _ _ (log _) => apply respects_modify; intros ?; simpl
  | |- respects _ _ (modify _) => apply respects_modify; intros ?; simpl
  | |- respects _ _ (match ?x with _ => _ end) => destruct x
  | |- forall _, _ => intros ?
  end.

Ltac respects_auto :=
  repeat respects_step; try exact _; try reflexivity.

Ltac run_monad :=
  unfold mbind, M_bind, mret, M_ret, throw, gets, modify, log; simpl.

Section Facts.
Variable path_join : list string -> string.
Variable w : World.
Variable this_inputFiles : list JsVal.
Variable this_output : string.
Variable destDir : string.

Abbreviation plan_file := (plan_file path_join w this_output destDir).
Abbreviation plan := (plan path_join w this_output destDir).
Abbreviation write := (write path_join w this_inputFiles this_output destDir).
Abbreviation reconcile := (reconcile path_join w this_inputFiles destDir).
Abbreviation read_back := (read_back path_join).
Abbreviation container_write := (container_write w).

(** *** The four ways through the loop body *)

Lemma plan_file_stat_fails srcDir f s :
  hashStats w (path_join [srcDir; f]) = None ->
  plan_file srcDir f s =
    ({| st_cache := st_cache s; st_disk := st_disk s;
        st_container := st_container s;
        st_trace := st_trace s ++ [EvStat (path_join [srcDir; f])] |},
     inl (StatFailed (path_join [srcDir; f]))).
Proof.
  intros Hs. unfold plan_file, statSync_hash. run_monad. by rewrite Hs.
Qed.

Lemma plan_file_hit srcDir f s c h :
  st_cache s !! f = Some c ->
  hashStats w (path_join [srcDir; f]) = Some h ->
  hash c = h ->
  plan_file srcDir f s =
    ({| st_cache := st_cache s;
        st_disk := <[path_join [destDir; this_output; f] := to_string (content c)]>
                     (st_disk s);
        st_container := st_container s;
        st_trace := st_trace s ++
          [EvStat (path_join [srcDir; f]);
           EvReplay f (path_join [destDir; this_output; f]) (content c)] |},
     inr tt).
Proof.
  intros Hc Hs Hh. unfold plan_file, statSync_hash, writeFileSync. run_monad.
  rewrite Hc, Hs. simpl. rewrite Hh, String.eqb_refl. simpl.
  by rewrite <- !app_assoc.
Qed.

Lemma plan_file_stale srcDir f s c h :
  st_cache s !! f = Some c ->
  hashStats w (path_join [srcDir; f]) = Some h ->
  hash c <> h ->
  plan_file srcDir f s =
    ({| st_cache := <[f := {| hash := h; content := content c |}]> (st_cache s);
        st_disk := st_disk s;
        st_container := st_container s ++ [f];
        st_trace := st_trace s ++
          [EvStat (path_join [srcDir; f]); EvGetModule f] |},
     inr tt).
Proof.
  intros Hc Hs Hh. unfold plan_file, statSync_hash, getModule. run_monad.
  rewrite Hc, Hs. simpl.
  apply String.eqb_neq in Hh. rewrite Hh. simpl.
  rewrite <- !app_assoc. simpl. unfold with_container, with_cache. simpl.
  do 2 f_equal.
  apply map_eq. intros k. rewrite lookup_alter, lookup_insert.
  destruct (decide (f = k)) as [->|]; [by rewrite Hc | done].
Qed.

Lemma plan_file_miss srcDir f s h :
  st_cache s !! f = None ->
  hashStats w (path_join [srcDir; f]) = Some h ->
  plan_file srcDir f s =
    ({| st_cache := <[f := {| hash := h; content := None |}]> (st_cache s);
        st_disk := st_disk s;
        st_container := st_container s ++ [f];
        st_trace := st_trace s ++
          [EvStat (path_join [srcDir; f]); EvGetModule f] |},
     inr tt).
Proof.
  intros Hc Hs. unfold plan_file, statSync_hash, getModule. run_monad.
  rewrite Hc, Hs. simpl. by rewrite <- !app_assoc.
Qed.

(** *** What each stage does to the cache and to the trace *)

Lemma plan_file_keeps_entries srcDir f :
  respects st_cache keeps_entries (plan_file srcDir f).
Proof.
  unfold plan_file, statSync_hash, writeFileSync, getModule.
  respects_auto; auto using keeps_entries_insert, keeps_entries_alter.
Qed.

Lemma container_write_same_cache outputPath :
  respects st_cache eq (container_write outputPath).
Proof.
  unfold container_write. respects_auto.
Qed.

Lemma read_back_keeps_hashes outputPath f :
  respects st_cache keeps_hashes (read_back outputPath f).
Proof.
  unfold read_back, readFileSync.
  respects_auto; apply keeps_hashes_set_content.
Qed.

Lemma reconcile_keeps_hashes outputPath :
  respects st_cache keeps_hashes (reconcile outputPath).
Proof.
  unfold reconcile, glob_outputs. respects_auto.
  apply read_back_keeps_hashes.
Qed.

Lemma plan_trace srcDir files :
  respects st_trace (grows_by is_planning_event) (plan srcDir files).
Proof.
  unfold plan. apply respects_for_each; [exact _|]. intros f.
  unfold plan_file, statSync_hash, writeFileSync, getModule.
  respects_auto; by apply grows_by_snoc.
Qed.

Lemma reconcile_trace outputPath :
  respects st_trace (grows_by is_read_back_event) (reconcile outputPath).
Proof.
  unfold reconcile, glob_outputs, read_back, readFileSync.
  respects_auto. by apply grows_by_snoc.
Qed.

(** [container.write] is called, with the modules got so far, and the
    destination tree is what the call leaves. *)
Lemma container_write_run outputPath s :
  container_write outputPath s =
    let r := containerWrite w (st_container s) outputPath (st_disk s) in
    ({| st_cache := st_cache s; st_disk := r.1;
        st_container := st_container s;
        st_trace := st_trace s ++ [EvContainerWrite outputPath (st_container s)] |},
     if r.2 then inr tt else inl TransformFailed).
Proof.
  unfold container_write. run_monad.
  destruct (containerWrite w (st_container s) outputPath (st_disk s)) as [d' [|]];
    reflexivity.
Qed.

(** The pass, stage by stage. *)
Lemma write_run srcDir files s :
  readTree w = Some srcDir ->
  globInputs w this_inputFiles srcDir = Some files ->
  write s =
    match plan srcDir files s with
    | (s1, inl e) => (s1, inl e)
    | (s1, inr _) =>
        match container_write (path_join [destDir; this_output]) s1 with
        | (s2, inl e) => (s2, inl e)
        | (s2, inr _) => reconcile (path_join [destDir; this_output]) s2
        end
    end.
Proof.
  intros Ht Hg. unfold write, read_tree, glob_inputs. rewrite Ht. run_monad.
  rewrite Hg. reflexivity.
Qed.

Lemma write_run_planned srcDir files s s1 :
  readTree w = Some srcDir ->
  globInputs w this_inputFiles srcDir = Some files ->
  plan srcDir files s = (s1, inr tt) ->
  exists u,
    st_trace (write s).1 =
      st_trace s1 ++
      EvContainerWrite (path_join [destDir; this_output]) (st_container s1) :: u /\
    Forall is_read_back_event u.
Proof.
  intros Ht Hg Hp. rewrite (write_run srcDir files s Ht Hg), Hp.
  rewrite container_write_run. simpl.
  destruct (containerWrite w _ _ _) as [d' [|]]; simpl.
  - match goal with |- context [reconcile ?p ?s2] =>
      destruct (reconcile_trace p s2) as [u [Hu HP]] end.
    exists u. rewrite Hu. simpl. by rewrite <- app_assoc.
  - exists []. split; [done | constructor].
Qed.

Lemma keeps_hashes_entries c c' : keeps_hashes c c' -> keeps_entries c c'.
Proof. intros H k [e He]. destruct (H k e He) as [e' [He' _]]. eauto. Qed.

Lemma write_keeps_entries : respects st_cache keeps_entries write.
Proof.
  unfold write, read_tree, glob_inputs, plan.
  respects_auto.
  - apply plan_file_keeps_entries.
  - intros s. rewrite <- (container_write_same_cache _ s). reflexivity.
  - intros s. apply keeps_hashes_entries, reconcile_keeps_hashes.
Qed.
End Facts.

(** * The planning loop *)

Section Planning.
Variable path_join : list string -> string.
Variable w : World.
Variable this_inputFiles : list JsVal.
Variable this_output : string.
Variable destDir : string.

Abbreviation plan_file := (plan_file path_join w this_output destDir).
Abbreviation plan := (plan path_join w this_output destDir).
Abbreviation run_pass :=
  (run_pass path_join w this_inputFiles this_output destDir).

Lemma plan_cons srcDir f files s :
  plan srcDir (f :: files) s =
    match plan_file srcDir f s with
    | (s', inl e) => (s', inl e)
    | (s', inr _) => plan srcDir files s'
    end.
Proof. reflexivity. Qed.

Lemma plan_app srcDir l1 l2 s :
  plan srcDir (l1 ++ l2) s =
    match plan srcDir l1 s with
    | (s', inl e) => (s', inl e)
    | (s', inr _) => plan srcDir l2 s'
    end.
Proof.
  revert s. induction l1 as [|f l1 IH]; intros s; [done|].
  rewrite <- app_comm_cons, !plan_cons.
  destruct (plan_file srcDir f s) as [s' [e|[]]]; [done | apply IH].
Qed.

(** Identities met for the first time, one after the other. *)
Lemma plan_all_missing srcDir files : forall s,
  NoDup files ->
  (forall f, f ∈ files -> st_cache s !! f = None) ->
  (forall f, f ∈ files -> is_Some (hashStats w (path_join [srcDir; f]))) ->
  exists s',
    plan srcDir files s = (s', inr tt) /\
    recomputed (st_trace s') = recomputed (st_trace s) ++ files /\
    replayed (st_trace s') = replayed (st_trace s) /\
    st_container s' = st_container s ++ files.
Proof.
  induction files as [|f files IH]; intros s Hnd Hnone Hstat.
  - exists s. by rewrite !app_nil_r.
  - apply NoDup_cons in Hnd as [Hf Hnd].
    destruct (Hstat f) as [h Hh]; [left|].
    rewrite plan_cons, (plan_file_miss _ _ _ _ _ _ _ h);
      [|apply Hnone; left|done].
    match goal with |- context [plan srcDir files ?s1] =>
      destruct (IH s1) as [s' [Hrun [Hrec [Hrep Hcon]]]]; [done| | |] end.
    + intros g Hg. simpl. rewrite lookup_insert_ne; [|by intros ->].
      apply Hnone. by right.
    + intros g Hg. apply Hstat. by right.
    + exists s'. split; [exact Hrun|]. simpl in *.
      rewrite Hrec, Hrep, Hcon, !recomputed_app, !replayed_app. simpl.
      rewrite !app_nil_r, <- !app_assoc. done.
Qed.

Lemma plan_file_ok srcDir f s h :
  hashStats w (path_join [srcDir; f]) = Some h ->
  (plan_file srcDir f s).2 = inr tt.
Proof.
  intros Hh. destruct (st_cache s !! f) as [c|] eqn:Hc.
  - destruct (decide (hash c = h)) as [He|Hne].
    + by rewrite (plan_file_hit _ _ _ _ _ _ _ c h).
    + by rewrite (plan_file_stale _ _ _ _ _ _ _ c h).
  - by rewrite (plan_file_miss _ _ _ _ _ _ _ h).
Qed.

Lemma plan_ok srcDir files : forall s,
  (forall f, f ∈ files -> is_Some (hashStats w (path_join [srcDir; f]))) ->
  (plan srcDir files s).2 = inr tt.
Proof.
  induction files as [|f files IH]; intros s Hstat; [done|].
  rewrite plan_cons. destruct (Hstat f) as [h Hh]; [left|].
  pose proof (plan_file_ok srcDir f s h Hh) as Hok.
  destruct (plan_file srcDir f s) as [s' [e|[]]]; [done|].
  apply IH. intros g Hg. apply Hstat. by right.
Qed.

Lemma plan_same_outside srcDir files :
  respects st_cache (same_outside files) (plan srcDir files).
Proof.
  apply respects_for_each_in; [exact _|]. intros f Hf.
  unfold plan_file, statSync_hash, writeFileSync, getModule.
  respects_auto; auto using same_outside_insert, same_outside_alter.
Qed.

(** C1 (amended). An identity whose entry stores the fingerprint just
    computed is replayed, whether the entry has content or not: the loop
    writes the entry's content field to the destination path, hands
    nothing to the container and leaves the cache as it is. *)
Theorem C1_equal_fingerprint_is_replayed srcDir f s c :
  st_cache s !! f = Some c ->
  hashStats w (path_join [srcDir; f]) = Some (hash c) ->
  let r := plan_file srcDir f s in
  r.2 = inr tt /\
  replayed (st_trace r.1) = replayed (st_trace s) ++ [f] /\
  recomputed (st_trace r.1) = recomputed (st_trace s) /\
  st_container r.1 = st_container s /\
  st_cache r.1 = st_cache s /\
  st_disk r.1 =
    <[path_join [destDir; this_output; f] := to_string (content c)]> (st_disk s).
Proof.
  intros Hc Hh. simpl.
  rewrite (plan_file_hit _ _ _ _ _ _ _ c (hash c) Hc Hh eq_refl). simpl.
  rewrite !replayed_app, !recomputed_app. simpl.
  by rewrite app_nil_r.
Qed.

(** C4. An identity without an entry gets one with the fingerprint just
    computed and no content, and is recomputed; a pass that starts from
    the empty cache replays nothing and recomputes the whole input set. *)
Theorem C4_cold_miss_is_recomputed :
  (forall srcDir f s h,
     st_cache s !! f = None ->
     hashStats w (path_join [srcDir; f]) = Some h ->
     let r := plan_file srcDir f s in
     r.2 = inr tt /\
     st_cache r.1 = <[f := {| hash := h; content := None |}]> (st_cache s) /\
     recomputed (st_trace r.1) = recomputed (st_trace s) ++ [f] /\
     replayed (st_trace r.1) = replayed (st_trace s) /\
     st_container r.1 = st_container s ++ [f]) /\
  (forall srcDir files d,
     readTree w = Some srcDir ->
     globInputs w this_inputFiles srcDir = Some files ->
     NoDup files ->
     (forall f, f ∈ files -> is_Some (hashStats w (path_join [srcDir; f]))) ->
     let r := run_pass ∅ d in
     recomputed (st_trace r.1) = files /\ replayed (st_trace r.1) = []).
Proof.
  split.
  - intros srcDir f s h Hc Hh. simpl.
    rewrite (plan_file_miss _ _ _ _ _ _ _ h Hc Hh). simpl.
    rewrite !replayed_app, !recomputed_app. simpl.
    by rewrite app_nil_r.
  - intros srcDir files d Ht Hg Hnd Hstat. simpl.
    destruct (plan_all_missing srcDir files (start ∅ d) Hnd)
      as [s1 [Hrun [Hrec [Hrep Hcon]]]]; [by intros f _ | done |].
    destruct (write_run_planned path_join w this_inputFiles this_output
                destDir srcDir files (start ∅ d) s1 Ht Hg Hrun)
      as [u [Hu HP]].
    unfold run_pass. rewrite Hu, cons_middle.
    apply read_back_events_unclassified in HP as [Hr1 [Hr2 _]].
    rewrite !replayed_app, !recomputed_app, Hr1, Hr2, Hrec, Hrep. simpl.
    by rewrite app_nil_r.
Qed.

(** C5. An identity whose entry stores another fingerprint than the one
    just computed gets the new fingerprint, keeps its content and is
    recomputed.  The new fingerprint is in the cache when the identity is
    handed to the container, and neither [container.write] nor the
    read-back changes the fingerprint of an entry afterwards. *)
Theorem C5_stale_fingerprint_is_overwritten srcDir f s c h :
  st_cache s !! f = Some c ->
  hashStats w (path_join [srcDir; f]) = Some h ->
  hash c <> h ->
  let r := plan_file srcDir f s in
  r.2 = inr tt /\
  st_cache r.1 = <[f := {| hash := h; content := content c |}]> (st_cache s) /\
  recomputed (st_trace r.1) = recomputed (st_trace s) ++ [f] /\
  replayed (st_trace r.1) = replayed (st_trace s) /\
  st_container r.1 = st_container s ++ [f] /\
  st_disk r.1 = st_disk s /\
  (forall outputPath, respects st_cache eq (container_write w outputPath)) /\
  (forall outputPath,
     respects st_cache keeps_hashes
       (reconcile path_join w this_inputFiles destDir outputPath)).
Proof.
  intros Hc Hh Hne. simpl.
  rewrite (plan_file_stale _ _ _ _ _ _ _ c h Hc Hh Hne). simpl.
  rewrite !replayed_app, !recomputed_app. simpl.
  rewrite app_nil_r. repeat split; try done.
  - apply container_write_same_cache.
  - apply reconcile_keeps_hashes.
Qed.

(** C7. When the stat of an identity throws in the loop, the pass ends
    with that error.  The cache and the destination are what the loop
    made of them on the identities before it: [container.write] and the
    read-back have not run, the failing identity has the entry it had
    (or none), and so has every identity that was not processed. *)
Theorem C7_stat_failure_keeps_earlier_updates srcDir l1 f l2 c d :
  readTree w = Some srcDir ->
  globInputs w this_inputFiles srcDir = Some (l1 ++ f :: l2) ->
  (forall g, g ∈ l1 -> is_Some (hashStats w (path_join [srcDir; g]))) ->
  hashStats w (path_join [srcDir; f]) = None ->
  exists s1,
    plan srcDir l1 (start c d) = (s1, inr tt) /\
    let r := run_pass c d in
    r.2 = inl (StatFailed (path_join [srcDir; f])) /\
    st_cache r.1 = st_cache s1 /\
    st_disk r.1 = st_disk s1 /\
    container_writes (st_trace r.1) = [] /\
    reconciled (st_trace r.1) = [] /\
    st_cache r.1 !! f = c !! f /\
    (forall g, g ∉ l1 -> st_cache r.1 !! g = c !! g).
Proof.
  intros Ht Hg Hstat Hfail.
  pose proof (plan_ok srcDir l1 (start c d) Hstat) as Hok.
  pose proof (plan_same_outside srcDir l1 (start c d)) as Hout.
  pose proof (plan_trace path_join w this_output destDir srcDir l1 (start c d))
    as [u [Hu HP]].
  destruct (plan srcDir l1 (start c d)) as [s1 [e|[]]] eqn:Hp; [done|].
  exists s1. split; [done|]. simpl in *.
  unfold run_pass.
  rewrite (write_run _ _ _ _ _ srcDir (l1 ++ f :: l2) _ Ht Hg).
  fold plan. rewrite plan_app, Hp, plan_cons.
  rewrite (plan_file_stat_fails _ _ _ _ _ _ _ Hfail). simpl.
  rewrite Hu. assert (Hfl : f ∉ l1).
  { intros Hin. destruct (Hstat f Hin) as [h Hh]. congruence. }
  apply planning_events_write_nothing in HP as [HP1 HP2].
  rewrite container_writes_app, reconciled_app, HP1, HP2. simpl.
  repeat split; auto.
Qed.
End Planning.

(** * The read-back *)

Section ReadBack.
Variable path_join : list string -> string.
Variable w : World.
Variable this_inputFiles : list JsVal.
Variable this_output : string.
Variable destDir : string.

Abbreviation read_back := (read_back path_join).
Abbreviation reconcile := (reconcile path_join w this_inputFiles destDir).
Abbreviation outputPath := (path_join [destDir; this_output]).

Lemma read_back_unreadable p f s :
  st_disk s !! path_join [p; f] = None ->
  read_back p f s = (s, inl (ReadFailed (path_join [p; f]))).
Proof. intros Hd. unfold read_back, readFileSync. run_monad. by rewrite Hd. Qed.

Lemma read_back_no_entry p f s data :
  st_disk s !! path_join [p; f] = Some data ->
  st_cache s !! f = None ->
  read_back p f s = (s, inl (NoCacheEntry f)).
Proof.
  intros Hd Hc. unfold read_back, readFileSync. run_monad.
  by rewrite Hd, Hc.
Qed.

Lemma read_back_sets p f s data e :
  st_disk s !! path_join [p; f] = Some data ->
  st_cache s !! f = Some e ->
  read_back p f s =
    ({| st_cache := <[f := {| hash := hash e; content := Some data |}]> (st_cache s);
        st_disk := st_disk s;
        st_container := st_container s;
        st_trace := st_trace s ++ [EvSetContent f data] |},
     inr tt).
Proof.
  intros Hd Hc. unfold read_back, readFileSync. run_monad.
  rewrite Hd, Hc. simpl. unfold with_cache, modify. simpl. do 2 f_equal.
  apply map_eq. intros k. rewrite lookup_alter, lookup_insert.
  case_decide; [subst k; by rewrite Hc | done].
Qed.

(** A read-back that returns normally found, for every path, a file and
    an entry, and stored the content of the one in the other. *)
Lemma read_back_all p outs : forall s s',
  for_each (read_back p) outs s = (s', inr tt) ->
  st_disk s' = st_disk s /\
  st_container s' = st_container s /\
  st_trace s' = st_trace s ++
    omap (fun f => EvSetContent f <$> st_disk s !! path_join [p; f]) outs /\
  (forall f, f ∈ outs ->
     exists e data,
       st_cache s !! f = Some e /\
       st_disk s !! path_join [p; f] = Some data /\
       st_cache s' !! f = Some {| hash := hash e; content := Some data |}) /\
  (forall f, f ∉ outs -> st_cache s' !! f = st_cache s !! f).
Proof.
  induction outs as [|g outs IH]; intros s s' Hrun.
  - injection Hrun as <-. rewrite app_nil_r. repeat split; try done.
    intros f Hf. by apply elem_of_nil in Hf.
  - simpl in Hrun. unfold mbind, M_bind in Hrun.
    destruct (st_disk s !! path_join [p; g]) as [data|] eqn:Hd;
      [|by rewrite read_back_unreadable in Hrun].
    destruct (st_cache s !! g) as [e|] eqn:Hc;
      [|by rewrite (read_back_no_entry _ _ _ data) in Hrun].
    rewrite (read_back_sets _ _ _ data e Hd Hc) in Hrun.
    apply IH in Hrun as [Hdisk [Hcon [Htr [Hin Hout]]]]. simpl in *.
    rewrite Hd. simpl. rewrite Hdisk, Hcon, Htr, <- app_assoc.
    repeat split; try done.
    + intros f Hf. destruct (decide (f ∈ outs)) as [Hfo|Hfo].
      * destruct (Hin f Hfo) as [e' [data' [He' [Hd' Hs']]]].
        rewrite lookup_insert in He'. case_decide as Hgf.
        -- subst f. injection He' as <-. simpl in Hs'. eauto.
        -- eauto.
      * apply elem_of_cons in Hf as [-> | Hf]; [|done].
        rewrite (Hout g Hfo), lookup_insert_eq. eauto.
    + intros f Hf. apply not_elem_of_cons in Hf as [Hfg Hfo].
      rewrite (Hout f Hfo). by apply lookup_insert_ne.
Qed.

(** The first path without an entry stops the read-back, whatever comes
    before it. *)
Lemma read_back_stops p outs : forall s f,
  f ∈ outs -> st_cache s !! f = None ->
  exists e, (for_each (read_back p) outs s).2 = inl e.
Proof.
  intros s f Hf Hc.
  destruct (for_each (read_back p) outs s) as [s' [e|[]]] eqn:Hrun; [eauto|].
  apply read_back_all in Hrun as (_ & _ & _ & Hin & _).
  destruct (Hin f Hf) as [e [data [He _]]]. congruence.
Qed.

(** Reading back what the cache already holds changes nothing. *)
Lemma read_back_again p outs : forall s,
  (forall f, f ∈ outs ->
     exists e data,
       st_cache s !! f = Some e /\ content e = Some data /\
       st_disk s !! path_join [p; f] = Some data) ->
  exists s',
    for_each (read_back p) outs s = (s', inr tt) /\
    st_cache s' = st_cache s /\ st_disk s' = st_disk s.
Proof.
  induction outs as [|g outs IH]; intros s Hheld.
  - by exists s.
  - destruct (Hheld g) as [e [data [He [Hdata Hd]]]]; [left|].
    simpl. unfold mbind, M_bind. rewrite (read_back_sets _ _ _ data e Hd He).
    assert (Hid : <[g := {| hash := hash e; content := Some data |}]> (st_cache s)
                  = st_cache s).
    { apply insert_id. rewrite He. f_equal. destruct e; simpl in *. by subst. }
    match goal with |- context [for_each _ outs ?s1] =>
      destruct (IH s1) as (s' & Hrun & Hc & Hdisk) end.
    { intros f Hf. simpl. rewrite Hid. apply Hheld. by right. }
    exists s'. simpl in *. rewrite Hrun, Hc, Hdisk, Hid. done.
Qed.

Lemma reconcile_same_disk p : respects st_disk eq (reconcile p).
Proof.
  unfold reconcile, glob_outputs, read_back, readFileSync.
  respects_auto.
Qed.

Lemma reconcile_run p s outs :
  globOutputs w this_inputFiles destDir (st_disk s) = Some outs ->
  reconcile p s = for_each (read_back p) outs s.
Proof.
  intros Hg. unfold reconcile, glob_outputs. run_monad. by rewrite Hg.
Qed.
End ReadBack.

(** * A whole pass *)

Section WholePass.
Variable path_join : list string -> string.
Variable w : World.
Variable this_inputFiles : list JsVal.
Variable this_output : string.
Variable destDir : string.

Abbreviation plan_file := (plan_file path_join w this_output destDir).
Abbreviation plan := (plan path_join w this_output destDir).
Abbreviation write := (write path_join w this_inputFiles this_output destDir).
Abbreviation run_pass :=
  (run_pass path_join w this_inputFiles this_output destDir).
Abbreviation read_back := (read_back path_join).
Abbreviation outputPath := (path_join [destDir; this_output]).
Abbreviation transformed := (transformed path_join this_output destDir).
Abbreviation up_to_date := (up_to_date path_join w).

Lemma write_stages srcDir files s sp d' outs :
  readTree w = Some srcDir ->
  globInputs w this_inputFiles srcDir = Some files ->
  plan srcDir files s = (sp, inr tt) ->
  containerWrite w (st_container sp) outputPath (st_disk sp) = (d', true) ->
  globOutputs w this_inputFiles destDir d' = Some outs ->
  write s = for_each (read_back outputPath) outs (transformed sp d').
Proof.
  intros Ht Hg Hp Hw Ho.
  rewrite (write_run _ _ _ _ _ srcDir files s Ht Hg). fold plan. rewrite Hp.
  rewrite container_write_run, Hw. simpl.
  by rewrite (reconcile_run _ _ _ _ _ _ outs).
Qed.

Lemma write_completed srcDir files s s' :
  readTree w = Some srcDir ->
  globInputs w this_inputFiles srcDir = Some files ->
  write s = (s', inr tt) ->
  exists sp d' outs,
    plan srcDir files s = (sp, inr tt) /\
    containerWrite w (st_container sp) outputPath (st_disk sp) = (d', true) /\
    globOutputs w this_inputFiles destDir d' = Some outs /\
    for_each (read_back outputPath) outs (transformed sp d') = (s', inr tt).
Proof.
  intros Ht Hg Hrun.
  rewrite (write_run _ _ _ _ _ srcDir files s Ht Hg) in Hrun. fold plan in Hrun.
  destruct (plan srcDir files s) as [sp [e|[]]] eqn:Hp; [done|].
  rewrite container_write_run in Hrun. simpl in Hrun.
  destruct (containerWrite w (st_container sp) outputPath (st_disk sp))
    as [d' [|]] eqn:Hw; simpl in Hrun; [|done].
  destruct (globOutputs w this_inputFiles destDir d') as [outs|] eqn:Ho.
  - exists sp, d', outs. repeat split; try done.
    by rewrite (reconcile_run _ _ _ _ _ _ outs) in Hrun.
  - unfold reconcile, glob_outputs in Hrun. revert Hrun. run_monad.
    by rewrite Ho.
Qed.

(** The container holds the identities the loop recomputes. *)
Lemma plan_file_container srcDir f s :
  st_container s = recomputed (st_trace s) ->
  st_container (plan_file srcDir f s).1 =
    recomputed (st_trace (plan_file srcDir f s).1).
Proof.
  intros Hinv.
  destruct (hashStats w (path_join [srcDir; f])) as [h|] eqn:Hh.
  - destruct (st_cache s !! f) as [c|] eqn:Hc.
    + destruct (decide (hash c = h)) as [He|Hne].
      * rewrite (plan_file_hit _ _ _ _ _ _ _ c h) by done. simpl.
        rewrite recomputed_app. simpl. by rewrite app_nil_r.
      * rewrite (plan_file_stale _ _ _ _ _ _ _ c h) by done. simpl.
        rewrite recomputed_app. simpl. by rewrite Hinv.
    + rewrite (plan_file_miss _ _ _ _ _ _ _ h) by done. simpl.
      rewrite recomputed_app. simpl. by rewrite Hinv.
  - rewrite plan_file_stat_fails by done. simpl.
    rewrite recomputed_app. simpl. by rewrite app_nil_r.
Qed.

Lemma plan_container srcDir files : forall s,
  st_container s = recomputed (st_trace s) ->
  st_container (plan srcDir files s).1 =
    recomputed (st_trace (plan srcDir files s).1).
Proof.
  induction files as [|f files IH]; intros s Hinv; [done|].
  rewrite plan_cons. pose proof (plan_file_container srcDir f s Hinv) as Hf.
  destruct (plan_file srcDir f s) as [s1 [e|[]]]; [done|].
  by apply IH.
Qed.

(** C9. A pass whose planning loop runs to its end calls
    [container.write] once, right after the loop and before any
    read-back, with the identities the loop recomputed, be they none. *)
Theorem C9_container_write_called_once srcDir files c d sp :
  readTree w = Some srcDir ->
  globInputs w this_inputFiles srcDir = Some files ->
  plan srcDir files (start c d) = (sp, inr tt) ->
  let r := run_pass c d in
  (exists u,
     st_trace r.1 =
       st_trace sp ++ EvContainerWrite outputPath (recomputed (st_trace sp)) :: u /\
     Forall is_planning_event (st_trace sp) /\
     Forall is_read_back_event u) /\
  container_writes (st_trace r.1) = [outputPath].
Proof.
  intros Ht Hg Hp. simpl.
  destruct (write_run_planned path_join w this_inputFiles this_output destDir
              srcDir files (start c d) sp Ht Hg Hp) as [u [Hu HP]].
  pose proof (plan_trace path_join w this_output destDir srcDir files (start c d))
    as [v [Hv HPv]].
  pose proof (plan_container srcDir files (start c d) eq_refl) as Hcon.
  fold plan in Hv. rewrite Hp in Hv, Hcon. simpl in Hv, Hcon.
  unfold run_pass. fold write. rewrite Hu, Hcon. split.
  - exists u. rewrite Hv. auto.
  - rewrite cons_middle, !container_writes_app, Hv.
    apply planning_events_write_nothing in HPv as [-> _].
    apply read_back_events_unclassified in HP as (_ & _ & ->). done.
Qed.

(** C10. The read-back assigns to [this.cache[filepath].content] without
    looking whether the entry is there.  When the loop and
    [container.write] have returned and the glob has matched, the pass
    returns normally only if every matched path has an entry; if one has
    none the pass throws, with the destination tree as the transform left
    it. *)
Theorem C10_read_back_needs_entries srcDir files c d sp d' outs :
  readTree w = Some srcDir ->
  globInputs w this_inputFiles srcDir = Some files ->
  plan srcDir files (start c d) = (sp, inr tt) ->
  containerWrite w (st_container sp) outputPath (st_disk sp) = (d', true) ->
  globOutputs w this_inputFiles destDir d' = Some outs ->
  let r := run_pass c d in
  (r.2 = inr tt -> forall f, f ∈ outs -> is_Some (st_cache sp !! f)) /\
  ((exists f, f ∈ outs /\ st_cache sp !! f = None) ->
   (exists e, r.2 = inl e) /\ st_disk r.1 = d').
Proof.
  intros Ht Hg Hp Hw Ho. simpl. unfold run_pass. fold write.
  rewrite (write_stages srcDir files _ sp d' outs Ht Hg Hp Hw Ho). split.
  - intros Hok f Hf.
    destruct (for_each _ _ _) as [s' [e|[]]] eqn:Hrun; [done|].
    apply read_back_all in Hrun as (_ & _ & _ & Hin & _).
    destruct (Hin f Hf) as [e [data [He _]]]. simpl in He. eauto.
  - intros [f [Hf Hnone]]. split.
    + by apply (read_back_stops path_join _ outs (transformed sp d') f).
    + pose proof (respects_for_each st_disk eq (read_back outputPath) outs) as Hd.
      rewrite <- Hd; [done|]. intros g.
      unfold read_back, readFileSync. respects_auto.
Qed.

(** C2 (amended). In a pass that returns normally the read-back assigns
    the content of the paths the glob over the destination directory
    returned, and of no other: each of them gets the text found under the
    output path and keeps its hash, whether the loop recomputed or
    replayed it, and an identity the glob did not return keeps its entry
    as the loop left it. *)
Theorem C2_read_back_follows_the_glob srcDir files c d sp d' outs :
  readTree w = Some srcDir ->
  globInputs w this_inputFiles srcDir = Some files ->
  plan srcDir files (start c d) = (sp, inr tt) ->
  containerWrite w (st_container sp) outputPath (st_disk sp) = (d', true) ->
  globOutputs w this_inputFiles destDir d' = Some outs ->
  let r := run_pass c d in
  r.2 = inr tt ->
  reconciled (st_trace r.1) = outs /\
  (forall f, f ∈ outs ->
     exists e data,
       st_cache sp !! f = Some e /\
       d' !! path_join [outputPath; f] = Some data /\
       st_cache r.1 !! f = Some {| hash := hash e; content := Some data |}) /\
  (forall f, f ∉ outs -> st_cache r.1 !! f = st_cache sp !! f) /\
  st_disk r.1 = d'.
Proof.
  intros Ht Hg Hp Hw Ho. simpl. unfold run_pass. fold write.
  rewrite (write_stages srcDir files _ sp d' outs Ht Hg Hp Hw Ho).
  destruct (for_each _ _ _) as [s' [e|[]]] eqn:Hrun; [done|]. intros _.
  pose proof (read_back_all _ _ _ _ _ Hrun) as (Hd & _ & Htr & Hin & Hout).
  simpl in *. repeat split; try done.
  rewrite Htr, !reconciled_app.
  pose proof (plan_trace path_join w this_output destDir srcDir files (start c d))
    as [v [Hv HPv]].
  fold plan in Hv. rewrite Hp in Hv. simpl in Hv. rewrite Hv.
  apply planning_events_write_nothing in HPv as [_ ->]. simpl.
  clear Hrun Htr Hout Ho. induction outs as [|g outs IH]; [done|].
  destruct (Hin g) as [e [data [_ [Hdg _]]]]; [left|].
  simpl. rewrite Hdg. simpl. f_equal. apply IH.
  intros f Hf. apply Hin. by right.
Qed.

(** *** Two passes over an unchanged file system *)

Lemma plan_file_up_to_date srcDir f s :
  (plan_file srcDir f s).2 = inr tt ->
  up_to_date srcDir f (st_cache (plan_file srcDir f s).1).
Proof.
  destruct (hashStats w (path_join [srcDir; f])) as [h|] eqn:Hh;
    [|by rewrite plan_file_stat_fails].
  intros _. destruct (st_cache s !! f) as [c|] eqn:Hc.
  - destruct (decide (hash c = h)) as [He|Hne].
    + rewrite (plan_file_hit _ _ _ _ _ _ _ c h) by done. exists c. by subst h.
    + rewrite (plan_file_stale _ _ _ _ _ _ _ c h) by done. simpl.
      eexists. rewrite lookup_insert_eq. done.
  - rewrite (plan_file_miss _ _ _ _ _ _ _ h) by done. simpl.
    eexists. rewrite lookup_insert_eq. done.
Qed.

Lemma plan_file_keeps_up_to_date srcDir f g s :
  up_to_date srcDir g (st_cache s) ->
  up_to_date srcDir g (st_cache (plan_file srcDir f s).1).
Proof.
  intros Hg. destruct (decide (f = g)) as [->|Hne].
  - destruct (hashStats w (path_join [srcDir; g])) as [h|] eqn:Hh.
    + apply plan_file_up_to_date. by apply (plan_file_ok _ _ _ _ _ _ _ h).
    + by rewrite plan_file_stat_fails.
  - destruct Hg as [e [He Hh]]. exists e. split; [|done]. rewrite <- He.
    assert (Hsame : respects st_cache (same_outside [f]) (plan_file srcDir f)).
    { unfold plan_file, statSync_hash, writeFileSync, getModule.
      respects_auto;
        auto using same_outside_insert, same_outside_alter, list_elem_of_here. }
    apply Hsame. intros Hin. apply list_elem_of_singleton in Hin. done.
Qed.

Lemma plan_completed_up_to_date srcDir files : forall s s',
  plan srcDir files s = (s', inr tt) ->
  forall f, f ∈ files -> up_to_date srcDir f (st_cache s').
Proof.
  induction files as [|g files IH]; intros s s' Hrun f Hf.
  - by apply elem_of_nil in Hf.
  - rewrite plan_cons in Hrun.
    pose proof (plan_file_up_to_date srcDir g s) as Hg.
    destruct (plan_file srcDir g s) as [s1 [e|[]]] eqn:Hs1; [done|].
    destruct (decide (f ∈ files)) as [Hin|Hnin]; [by apply (IH s1)|].
    apply elem_of_cons in Hf as [-> | Hf]; [|done].
    specialize (Hg eq_refl). simpl in Hg. clear IH Hs1 Hnin.
    revert s1 s' Hrun Hg. induction files as [|x files IH]; intros s1 s' Hrun Hg.
    + by injection Hrun as <-.
    + rewrite plan_cons in Hrun.
      pose proof (plan_file_keeps_up_to_date srcDir x g s1 Hg) as Hx.
      destruct (plan_file srcDir x s1) as [s2 [e|[]]]; [done|].
      by apply (IH s2).
Qed.

Lemma up_to_date_keeps_hashes srcDir f c c' :
  keeps_hashes c c' -> up_to_date srcDir f c -> up_to_date srcDir f c'.
Proof.
  intros Hk [e [He Hh]]. destruct (Hk f e He) as [e' [He' Heq]].
  exists e'. by rewrite Heq.
Qed.

(** A loop over identities that are all up to date replays them all and
    leaves the cache alone; where the destination already holds the
    cached text, it leaves the destination alone too. *)
Lemma plan_all_up_to_date srcDir files : forall s,
  (forall f, f ∈ files -> up_to_date srcDir f (st_cache s)) ->
  exists s',
    plan srcDir files s = (s', inr tt) /\
    st_cache s' = st_cache s /\
    st_container s' = st_container s /\
    replayed (st_trace s') = replayed (st_trace s) ++ files /\
    recomputed (st_trace s') = recomputed (st_trace s) /\
    ((forall f, f ∈ files ->
        exists e data,
          st_cache s !! f = Some e /\ content e = Some data /\
          st_disk s !! path_join [destDir; this_output; f] = Some data) ->
     st_disk s' = st_disk s).
Proof.
  induction files as [|f files IH]; intros s Hup.
  - exists s. rewrite app_nil_r. done.
  - destruct (Hup f) as [e [He Hh]]; [left|].
    rewrite plan_cons, (plan_file_hit _ _ _ _ _ _ _ e (hash e)) by done.
    match goal with |- context [plan srcDir files ?s1] =>
      destruct (IH s1) as (s' & Hrun & Hc & Hcon & Hrep & Hrec & Hdisk) end.
    { intros g Hg. apply Hup. by right. }
    exists s'. split; [exact Hrun|]. simpl in *.
    rewrite Hc, Hcon, Hrep, Hrec, !replayed_app, !recomputed_app. simpl.
    rewrite app_nil_r, <- app_assoc. repeat split; try done.
    intros Hcached.
    destruct (Hcached f) as [e' [data [He' [Hdata Hd]]]]; [left|].
    assert (e' = e) as -> by congruence.
    rewrite Hdata in Hdisk. simpl in Hdisk. rewrite (insert_id _ _ _ Hd) in Hdisk.
    apply Hdisk. intros g Hg. apply Hcached. by right.
Qed.

(** C3 (amended). After a pass that returned normally, a second pass in
    the same world, on the cache and the destination the first one left,
    recomputes nothing and replays the whole input set.  When moreover
    every input identity was among the paths the read-back glob returned
    and the replay path of an identity is its read-back path, the replays
    rewrite what is there, and the destination after the second pass is
    what [container.write], called with no module on the destination the
    first pass left, leaves.  If that call throws, the second pass ends
    with its error and the cache is as the first pass left it.  If that
    call writes nothing, whether it returns or throws, the destination
    and the cache are as the first pass left them. *)
Theorem C3_second_pass_replays_everything srcDir files c d s1 :
  readTree w = Some srcDir ->
  globInputs w this_inputFiles srcDir = Some files ->
  run_pass c d = (s1, inr tt) ->
  let r2 := run_pass (st_cache s1) (st_disk s1) in
  let t := containerWrite w [] outputPath (st_disk s1) in
  recomputed (st_trace r2.1) = [] /\
  replayed (st_trace r2.1) = files /\
  ((forall f, f ∈ files ->
      path_join [destDir; this_output; f] = path_join [outputPath; f]) ->
   (exists outs,
      globOutputs w this_inputFiles destDir (st_disk s1) = Some outs /\
      forall f, f ∈ files -> f ∈ outs) ->
   st_disk r2.1 = t.1 /\
   (t.2 = false ->
    r2.2 = inl TransformFailed /\ st_cache r2.1 = st_cache s1) /\
   (t.1 = st_disk s1 ->
    st_disk r2.1 = st_disk s1 /\
    st_cache r2.1 = st_cache s1 /\
    r2.2 = if t.2 then inr tt else inl TransformFailed)).
Proof.
  intros Ht Hg Hrun1. simpl.
  destruct (write_completed srcDir files (start c d) s1 Ht Hg Hrun1)
    as (sp & d' & outs1 & Hp & Hw & Ho & Hrb).
  pose proof (read_back_all _ _ _ _ _ Hrb) as (Hd1 & _ & _ & Hin1 & _).
  simpl in Hd1, Hin1.
  assert (Hup : forall f, f ∈ files -> up_to_date srcDir f (st_cache s1)).
  { intros f Hf. apply (up_to_date_keeps_hashes srcDir f (st_cache sp)).
    - pose proof (respects_for_each st_cache keeps_hashes
                    (read_back outputPath) outs1
                    (read_back_keeps_hashes path_join outputPath)
                    (transformed sp d')) as Hk.
      by rewrite Hrb in Hk.
    - by apply (plan_completed_up_to_date srcDir files (start c d) sp). }
  destruct (plan_all_up_to_date srcDir files (start (st_cache s1) (st_disk s1)) Hup)
    as (s2 & Hp2 & Hc2 & Hcon2 & Hrep2 & Hrec2 & Hdisk2).
  simpl in Hc2, Hcon2, Hrep2, Hrec2, Hdisk2.
  destruct (write_run_planned path_join w this_inputFiles this_output destDir
              srcDir files _ s2 Ht Hg Hp2) as [u [Hu HPu]].
  unfold run_pass. fold write. split; [|split].
  - rewrite Hu, cons_middle, !recomputed_app, Hrec2.
    by apply read_back_events_unclassified in HPu as (_ & -> & _).
  - rewrite Hu, cons_middle, !replayed_app, Hrep2.
    apply read_back_events_unclassified in HPu as (-> & _ & _).
    simpl. by rewrite app_nil_r.
  - intros Hpath [outs [Ho2 Hcover]].
    rewrite Hd1 in Ho2. assert (outs = outs1) as -> by congruence.
    assert (Hheld : forall f, f ∈ outs1 ->
              exists e data,
                st_cache s1 !! f = Some e /\ content e = Some data /\
                st_disk s1 !! path_join [outputPath; f] = Some data).
    { intros f Hf. destruct (Hin1 f Hf) as [e [data [_ [Hdata Hs1]]]].
      exists {| hash := hash e; content := Some data |}, data.
      by rewrite Hd1. }
    assert (Hd2 : st_disk s2 = st_disk s1).
    { apply Hdisk2. intros f Hf.
      destruct (Hheld f (Hcover f Hf)) as [e [data [He [Hdata Hdd]]]].
      exists e, data. by rewrite (Hpath f Hf). }
    rewrite (write_run _ _ _ _ _ srcDir files _ Ht Hg). fold plan.
    rewrite Hp2, container_write_run, Hcon2, Hd2. simpl.
    destruct (containerWrite w [] outputPath (st_disk s1)) as [dt [|]] eqn:Hcw;
      simpl.
    + split; [|split].
      * match goal with
        | |- context [reconcile path_join w this_inputFiles destDir ?p ?s3] =>
            by rewrite <- (reconcile_same_disk path_join w this_inputFiles
                             destDir p s3)
        end.
      * intros [=].
      * intros ->. rewrite <- Hd1 in Ho.
        match goal with
        | |- context [reconcile path_join w this_inputFiles destDir ?p ?s3] =>
            rewrite (reconcile_run path_join w this_inputFiles destDir
                       p s3 outs1 Ho)
        end.
        match goal with |- context [for_each _ outs1 ?s3] =>
          destruct (read_back_again path_join outputPath outs1 s3)
            as (s4 & Hrun4 & Hc4 & Hd4) end.
        { intros f Hf. simpl. rewrite Hc2. by apply Hheld. }
        rewrite Hrun4. simpl in *. by rewrite Hc4, Hd4, Hc2.
    + split; [done|]. split; [by intros _|]. by intros ->.
Qed.
End WholePass.

Lemma C1_replay_witness :
  let s := start {[ "a.js" := entry_a ]} ∅ in
  let r := plan_file posix_join world_ab "/" "/dest" "/src" "a.js" s in
  r.2 = inr tt /\
  replayed (st_trace r.1) = replayed (st_trace s) ++ ["a.js"] /\
  recomputed (st_trace r.1) = recomputed (st_trace s) /\
  st_container r.1 = st_container s /\
  st_cache r.1 = st_cache s /\
  st_disk r.1 = <[posix_join ["/dest"; "/"; "a.js"] := "compiled a.js"]> (st_disk s).
Proof.
  apply (C1_equal_fingerprint_is_replayed posix_join world_ab "/" "/dest"
           "/src" "a.js" (start {[ "a.js" := entry_a ]} ∅) entry_a).
  - vm_compute. reflexivity.
  - vm_compute. reflexivity.
Defined.

(** The claim as stated fails.  A pass in which [container.write] throws
    leaves an entry with the current fingerprint and no content.  In the
    next pass that entry is replayed, not recomputed: its fingerprint is
    the current one, and the text of [undefined] goes to the
    destination. *)
Lemma C1_no_content_is_replayed :
  let r1 := run_pass posix_join world_a_throwing globs_js "/" "/dest" ∅ ∅ in
  let s := start (st_cache r1.1) ∅ in
  let r := plan_file posix_join world_a "/" "/dest" "/src" "a.js" s in
  r1.2 = inl TransformFailed /\
  st_cache s !! "a.js" = Some entry_a_no_content /\
  content entry_a_no_content = None /\
  hashStats world_a (posix_join ["/src"; "a.js"]) = Some (hash entry_a_no_content) /\
  r.2 = inr tt /\
  recomputed (st_trace r.1) = [] /\
  replayed (st_trace r.1) = ["a.js"] /\
  st_disk r.1 !! "/dest/a.js" = Some "undefined".
Proof. vm_compute. repeat split. Qed.

Lemma C4_cold_miss_witness :
  (let r := plan_file posix_join world_ab "/" "/dest" "/src" "a.js"
              (start ∅ ∅) in
   r.2 = inr tt /\
   st_cache r.1 = <[ "a.js" := entry_a_no_content ]> ∅ /\
   recomputed (st_trace r.1) = [] ++ ["a.js"] /\
   replayed (st_trace r.1) = [] /\
   st_container r.1 = [] ++ ["a.js"]) /\
  (let r := pass_ab ∅ ∅ in
   recomputed (st_trace r.1) = ["a.js"; "b.js"] /\ replayed (st_trace r.1) = []).
Proof.
  pose proof (C4_cold_miss_is_recomputed posix_join world_ab globs_js "/" "/dest")
    as [Hstep Hpass].
  split.
  - apply (Hstep "/src" "a.js" (start ∅ ∅) "ha"); vm_compute; reflexivity.
  - apply (Hpass "/src" ["a.js"; "b.js"] ∅); try (vm_compute; reflexivity).
    + apply NoDup_cons. split; [|apply NoDup_singleton].
      intros H. apply list_elem_of_singleton in H. discriminate.
    + intros f Hf. apply elem_of_cons in Hf as [-> | Hf].
      * vm_compute. eauto.
      * apply list_elem_of_singleton in Hf as ->. vm_compute. eauto.
Defined.

Lemma C5_stale_witness :
  let s := start {[ "a.js" := entry_a_old ]} ∅ in
  let r := plan_file posix_join world_ab "/" "/dest" "/src" "a.js" s in
  r.2 = inr tt /\
  st_cache r.1 =
    <[ "a.js" := {| hash := "ha"; content := Some "compiled old a.js" |} ]>
      (st_cache s) /\
  recomputed (st_trace r.1) = recomputed (st_trace s) ++ ["a.js"] /\
  replayed (st_trace r.1) = replayed (st_trace s).
Proof.
  pose proof (C5_stale_fingerprint_is_overwritten posix_join world_ab globs_js
                "/" "/dest" "/src" "a.js"
                (start {[ "a.js" := entry_a_old ]} ∅) entry_a_old "ha") as H.
  destruct H as [H1 [H2 [H3 [H4 _]]]].
  - vm_compute. reflexivity.
  - vm_compute. reflexivity.
  - discriminate.
  - repeat split; assumption.
Defined.

Lemma C7_stat_failure_witness :
  let r := run_pass posix_join world_b_vanished globs_js "/" "/dest" ∅ ∅ in
  r.2 = inl (StatFailed "/src/b.js") /\
  st_cache r.1 !! "a.js" = Some entry_a_no_content /\
  st_cache r.1 !! "b.js" = None /\
  container_writes (st_trace r.1) = [].
Proof.
  destruct (C7_stat_failure_keeps_earlier_updates posix_join world_b_vanished
              globs_js "/" "/dest" "/src" ["a.js"] "b.js" [] ∅ ∅)
    as [s1 [Hp [Hr [Hc [Hd [Hw [Hrec [Hf Hg]]]]]]]].
  - reflexivity.
  - reflexivity.
  - intros g Hg. apply list_elem_of_singleton in Hg as ->. vm_compute. eauto.
  - vm_compute. reflexivity.
  - vm_compute in Hp. injection Hp as <-.
    split; [exact Hr|]. split; [rewrite Hc; reflexivity|].
    split; [rewrite Hf; reflexivity | exact Hw].
Defined.

Lemma C9_all_replayed_witness :
  let r := pass_ab cache_ab disk_ab in
  recomputed (st_trace r.1) = [] /\
  container_writes (st_trace r.1) = ["/dest/"].
Proof.
  pose (sp := (plan posix_join world_ab "/" "/dest" "/src" ["a.js"; "b.js"]
                 (start cache_ab disk_ab)).1).
  destruct (C9_container_write_called_once posix_join world_ab globs_js "/"
              "/dest" "/src" ["a.js"; "b.js"] cache_ab disk_ab sp)
    as [_ Hw].
  - reflexivity.
  - reflexivity.
  - vm_compute. reflexivity.
  - split; [vm_compute; reflexivity | exact Hw].
Defined.

Lemma C10_missing_entry_witness :
  let r := pass_helpers ∅ ∅ in
  (exists e, r.2 = inl e) /\
  st_disk r.1 =
    (compile_with_helpers ["a.js"] (posix_join ["/dest"; "/"]) ∅).1.
Proof.
  pose (sp := (plan posix_join world_helpers "/" "/dest" "/src" ["a.js"]
                 (start ∅ ∅)).1).
  destruct (C10_read_back_needs_entries posix_join world_helpers globs_js "/"
              "/dest" "/src" ["a.js"] ∅ ∅ sp
              (compile_with_helpers ["a.js"] (posix_join ["/dest"; "/"]) ∅).1
              ["a.js"; "helpers.js"])
    as [_ Hthrows].
  - reflexivity.
  - reflexivity.
  - vm_compute. reflexivity.
  - vm_compute. reflexivity.
  - vm_compute. reflexivity.
  - apply Hthrows. exists "helpers.js". split.
    + right. left.
    + vm_compute. reflexivity.
Defined.

Example pass_helpers_error :
  (pass_helpers ∅ ∅).2 = inl (NoCacheEntry "helpers.js").
Proof. vm_compute. reflexivity. Qed.

Lemma C2_read_back_witness :
  let r := pass_ab ∅ ∅ in
  reconciled (st_trace r.1) = ["a.js"; "b.js"] /\
  st_cache r.1 !! "a.js" = Some entry_a.
Proof.
  pose (sp := (plan posix_join world_ab "/" "/dest" "/src" ["a.js"; "b.js"]
                 (start ∅ ∅)).1).
  destruct (C2_read_back_follows_the_glob posix_join world_ab globs_js "/"
              "/dest" "/src" ["a.js"; "b.js"] ∅ ∅ sp
              (compile_each ["a.js"; "b.js"] (posix_join ["/dest"; "/"]) ∅).1
              ["a.js"; "b.js"])
    as (Hrec & Hin & _ & _).
  - reflexivity.
  - reflexivity.
  - vm_compute. reflexivity.
  - vm_compute. reflexivity.
  - vm_compute. reflexivity.
  - vm_compute. reflexivity.
  - split; [exact Hrec|].
    destruct (Hin "a.js") as [e [data [He [Hd Hc]]]]; [left|].
    vm_compute in He. injection He as <-.
    vm_compute in Hd. injection Hd as <-.
    exact Hc.
Defined.

(** The claim as stated fails.  After [a.js] was edited, a pass
    recomputes [a.js] and replays [b.js]; [container.write] gets one
    module and returns, and the read-back assigns the content of both
    entries, of [b.js] too, which is not in the recompute set. *)
Lemma C2_replayed_identities_are_read_back :
  let r := pass_ab_strict cache_a_edited ∅ in
  r.2 = inr tt /\
  recomputed (st_trace r.1) = ["a.js"] /\
  replayed (st_trace r.1) = ["b.js"] /\
  transform_calls (st_trace r.1) = [("/dest/", ["a.js"])] /\
  ("b.js" ∉ recomputed (st_trace r.1)) /\
  ("b.js" ∈ reconciled (st_trace r.1)) /\
  reconciled (st_trace r.1) = ["a.js"; "b.js"].
Proof.
  assert (Hrec : recomputed (st_trace (pass_ab_strict cache_a_edited ∅).1)
                 = ["a.js"]) by (vm_compute; reflexivity).
  assert (Hcon : reconciled (st_trace (pass_ab_strict cache_a_edited ∅).1)
                 = ["a.js"; "b.js"]) by (vm_compute; reflexivity).
  simpl. rewrite Hrec, Hcon.
  split; [vm_compute; reflexivity|]. split; [reflexivity|].
  split; [vm_compute; reflexivity|]. split; [vm_compute; reflexivity|].
  split; [|split; [|reflexivity]].
  - intros H. apply list_elem_of_singleton in H. discriminate.
  - right. left.
Qed.

Lemma C3_second_pass_witness :
  let s1 := (pass_ab_strict ∅ ∅).1 in
  let r2 := pass_ab_strict (st_cache s1) (st_disk s1) in
  recomputed (st_trace r2.1) = [] /\
  replayed (st_trace r2.1) = ["a.js"; "b.js"] /\
  r2.2 = inl TransformFailed /\
  st_disk r2.1 = st_disk s1 /\ st_cache r2.1 = st_cache s1.
Proof.
  destruct (C3_second_pass_replays_everything posix_join world_ab_strict
              globs_js "/" "/dest" "/src" ["a.js"; "b.js"] ∅ ∅
              (pass_ab_strict ∅ ∅).1)
    as (Hrec & Hrep & Hsame).
  - reflexivity.
  - reflexivity.
  - vm_compute. reflexivity.
  - split; [exact Hrec|]. split; [exact Hrep|].
    destruct Hsame as (_ & Hthrows & Huntouched).
    + intros f Hf. apply elem_of_cons in Hf as [-> | Hf].
      * vm_compute. reflexivity.
      * apply list_elem_of_singleton in Hf as ->. vm_compute. reflexivity.
    + exists ["a.js"; "b.js"]. split; [vm_compute; reflexivity | auto].
    + destruct Hthrows as [Herr _]; [reflexivity|].
      destruct Huntouched as (Hd & Hc & _); [reflexivity|].
      split; [exact Herr|]. split; [exact Hd | exact Hc].
Defined.

(** The claim as stated fails.  In [world_merged] the first pass returns
    normally and writes no file for [b.js].  The second pass, on the
    cache and the destination the first one left, recomputes nothing and
    replays [b.js] from an entry without content, which leaves a file for
    it before [container.write] throws on its empty container: the
    destination is not what the first pass left. *)
Lemma C3_merged_output_is_not_reproduced :
  let r1 := pass_merged ∅ ∅ in
  let r2 := pass_merged (st_cache r1.1) (st_disk r1.1) in
  r1.2 = inr tt /\
  r2.2 = inl TransformFailed /\
  recomputed (st_trace r2.1) = [] /\
  replayed (st_trace r2.1) = ["a.js"; "b.js"] /\
  st_disk r1.1 !! "/dest/b.js" = None /\
  st_disk r2.1 !! "/dest/b.js" = Some "undefined" /\
  st_disk r2.1 <> st_disk r1.1.
Proof.
  repeat split; try (vm_compute; reflexivity).
  intros Heq. apply (f_equal (fun d : Disk => d !! "/dest/b.js")) in Heq.
  vm_compute in Heq. discriminate.
Qed.

(** * Construction *)

Section ConstructionFacts.
Variable assertAbsolutePaths : JsVal -> bool.
Variable formatters : string -> JsVal.

Abbreviation CompileModules' := (CompileModules assertAbsolutePaths formatters).
Abbreviation invalid := (invalid_arguments assertAbsolutePaths formatters).

Lemma falsy_truthy v : falsy v <-> truthy v = false.
Proof.
  unfold falsy. split.
  - intros [-> | [-> | [-> | [-> | [-> | ->]]]]]; reflexivity.
  - destruct v as [| |b|n| |s| | | |]; simpl; try discriminate.
    + auto.
    + auto.
    + destruct b; [discriminate | auto].
    + intros H. apply negb_false_iff, Z.eqb_eq in H. subst. auto 6.
    + auto 7.
    + intros H. apply negb_false_iff, String.eqb_eq in H. subst. auto 7.
Qed.

Lemma asked_formatter_defaulted fmt v :
  asked_formatter formatters fmt v <-> v = defaulted formatters fmt.
Proof.
  unfold defaulted. split.
  - intros [Hn | Hf].
    + destruct (truthy fmt) eqn:Ht; [done|]. destruct Hn. by apply falsy_truthy.
    + apply falsy_truthy in Hf. by rewrite Hf.
  - intros ->. destruct (truthy fmt) eqn:Ht.
    + apply asked_given. rewrite falsy_truthy. congruence.
    + apply asked_default. by apply falsy_truthy.
Qed.

Lemma setInputTree_fails tree :
  (exists e, setInputTree tree = inl e) <-> missing_tree tree.
Proof.
  unfold missing_tree. split.
  - intros [e He]. destruct tree; simpl in He; auto; discriminate.
  - intros [-> | ->]; simpl; eauto.
Qed.

Lemma setInputFiles_fails files :
  (exists e, setInputFiles files = inl e) <-> isArray files = false.
Proof.
  split.
  - intros [e He]. destruct files; simpl in *; auto; discriminate.
  - destruct files; simpl; eauto; discriminate.
Qed.

Lemma setOutput_fails out :
  (exists e, setOutput assertAbsolutePaths out = inl e) <->
  assertAbsolutePaths out = false.
Proof.
  unfold setOutput. destruct (assertAbsolutePaths out); split; eauto;
    try discriminate. intros [e He]. discriminate.
Qed.

Lemma resolve_not_a_name v :
  (forall name, v <> JString name) -> resolve formatters v = inr v.
Proof. intros Hv. destruct v; try done. by destruct (Hv s). Qed.

Lemma setFormatter_fails fmt :
  (exists e, setFormatter formatters fmt = inl e) <->
  unknown_formatter_name formatters fmt \/ formatter_not_object formatters fmt.
Proof.
  unfold setFormatter, unknown_formatter_name, formatter_not_object,
    builtin_formatter.
  split.
  - intros [e He].
    assert (Ha : asked_formatter formatters fmt (defaulted formatters fmt))
      by (by apply asked_formatter_defaulted).
    destruct (defaulted formatters fmt) as [| | | | |name| | | |] eqn:Hv.
    6:{ unfold resolve in He. destruct (formatters name) eqn:Hn;
          try (left; exists name; split;
               [exact Ha | intros i; rewrite Hn; discriminate]).
        simpl in He. case_decide as Hty; [discriminate|].
        right. exists (JString name). split; [exact Ha|]. left. eauto. }
    all: rewrite resolve_not_a_name in He by (by intros name);
      case_decide as Hty; [discriminate|];
      right; eexists; split; [exact Ha|]; right; split; [by intros name | done].
  - intros [[name [Ha Hno]] | [v [Ha Hcase]]];
      apply asked_formatter_defaulted in Ha; rewrite <- Ha.
    + simpl. destruct (formatters name) as [| | | | | | | |i|] eqn:Hn; eauto.
      by destruct (Hno i).
    + destruct Hcase as [[name [i [-> [Hn Hty]]]] | [Hv Hty]].
      * simpl. rewrite Hn. case_decide; [done | eauto].
      * rewrite (resolve_not_a_name v Hv). case_decide; [done | eauto].
Qed.

(** C6. The constructor throws exactly when the input tree is undefined or
    null, [options.inputFiles] is not an array, [options.output] does not
    pass the absolute-path assertion, the formatter asked for is a name
    with no built-in formatter, or what is asked for (the instance, for a
    name) is not of type object; otherwise it returns a stage, whose
    cache is empty.  The formatter asked for is the option, or the
    table's default when the option is falsy.  Construction runs no
    pass: it is a function of its arguments alone. *)
Theorem C6_construction_fails_iff_invalid (tree : JsVal) (options : Options) :
  ((exists e, CompileModules' tree options = inl e) <-> invalid tree options) /\
  (~ invalid tree options ->
   exists stage, CompileModules' tree options = inr stage /\ cache stage = ∅).
Proof.
  assert (Hiff : (exists e, CompileModules' tree options = inl e) <->
                 invalid tree options).
  { unfold CompileModules, invalid_arguments.
    rewrite <- setInputTree_fails, <- setInputFiles_fails,
      <- setOutput_fails, <- setFormatter_fails.
    destruct (setInputTree tree) as [e1|t]; [split; eauto|].
    destruct (setInputFiles (opt_inputFiles options)) as [e2|g]; [split; eauto|].
    destruct (setOutput assertAbsolutePaths (opt_output options)) as [e3|o];
      [split; eauto 6|].
    destruct (setFormatter formatters (opt_formatter options)) as [e4|f];
      [split; eauto 6|].
    split; [intros [e He]; discriminate|].
    intros [[e He] | [[e He] | [[e He] | [e He]]]]; discriminate. }
  split; [exact Hiff|].
  intros Hvalid. unfold CompileModules in *.
  destruct (setInputTree tree) as [e1|t]; [destruct Hvalid; apply Hiff; eauto|].
  destruct (setInputFiles (opt_inputFiles options)) as [e2|g];
    [destruct Hvalid; apply Hiff; eauto|].
  destruct (setOutput assertAbsolutePaths (opt_output options)) as [e3|o];
    [destruct Hvalid; apply Hiff; eauto|].
  destruct (setFormatter formatters (opt_formatter options)) as [e4|f];
    [destruct Hvalid; apply Hiff; eauto|].
  eexists. split; reflexivity.
Qed.
End ConstructionFacts.

Lemma C6_construction_witness :
  (exists e, CompileModules absolute_string builtin_formatters
               JUndefined options_js = inl e) /\
  (exists e, CompileModules absolute_string builtin_formatters
               (JObject "tree") (options_with (JString "amd")) = inl e) /\
  (exists e, CompileModules absolute_string builtin_formatters
               (JObject "tree")
               (options_with (JFunction (JObject "BundleFormatter"))) = inl e) /\
  (exists stage, CompileModules absolute_string builtin_formatters
                   (JObject "tree") options_js = inr stage /\
                 cache stage = ∅).
Proof.
  assert (Hamd : ~ falsy (JString "amd")).
  { intros [H|[H|[H|[H|[H|H]]]]]; discriminate. }
  assert (Hfun : ~ falsy (JFunction (JObject "BundleFormatter"))).
  { intros [H|[H|[H|[H|[H|H]]]]]; discriminate. }
  split; [|split; [|split]].
  - apply (C6_construction_fails_iff_invalid absolute_string builtin_formatters
             JUndefined options_js).
    left. left. reflexivity.
  - apply (C6_construction_fails_iff_invalid absolute_string builtin_formatters
             (JObject "tree") (options_with (JString "amd"))).
    right. right. right. left. exists "amd". split.
    + apply asked_given, Hamd.
    + intros instance H. vm_compute in H. discriminate.
  - apply (C6_construction_fails_iff_invalid absolute_string builtin_formatters
             (JObject "tree")
             (options_with (JFunction (JObject "BundleFormatter")))).
    right. right. right. right.
    exists (JFunction (JObject "BundleFormatter")). split.
    + apply asked_given, Hfun.
    + right. split; [intros name; discriminate | discriminate].
  - apply (C6_construction_fails_iff_invalid absolute_string builtin_formatters
             (JObject "tree") options_js).
    intros [[H|H]|[H|[H|[[n [Ha Hno]]|[v [Ha Hc]]]]]]; try discriminate.
    + inversion Ha as [Hnf Heq | Hf Heq]. subst n.
      apply (Hno (JObject "BundleFormatter")). reflexivity.
    + inversion Ha as [Hnf Heq | Hf Heq].
      * destruct Hnf. left. reflexivity.
      * subst v.
        destruct Hc as [[name [instance [Hname [Hb Hty]]]] | [Hname _]].
        -- injection Hname as <-. vm_compute in Hb. injection Hb as <-.
           apply Hty. reflexivity.
        -- by destruct (Hname "bundle").
Defined.

(** * The cache only grows *)

Section Growth.
Variable path_join : list string -> string.
Variable this_inputFiles : list JsVal.
Variable this_output : string.

Lemma run_pass_keeps_entries w destDir c d :
  keeps_entries c
    (st_cache (run_pass path_join w this_inputFiles this_output destDir c d).1).
Proof.
  apply (write_keeps_entries path_join w this_inputFiles this_output destDir
           (start c d)).
Qed.

Lemma run_passes_keeps_entries passes c :
  keeps_entries c (run_passes path_join this_inputFiles this_output passes c).
Proof.
  revert c. induction passes as [|p passes IH]; intros c; simpl.
  - reflexivity.
  - etransitivity; [|apply IH]. apply run_pass_keeps_entries.
Qed.

(** C8. A constructed stage has an empty cache, and every identity that
    has an entry keeps one: through the planning loop, through
    [container.write], through the read-back, through a whole pass
    however it ends, and through any sequence of passes, whatever their
    worlds (and so their input sets) are. *)
Theorem C8_cache_grows_monotonically :
  (forall assertAbsolutePaths formatters tree options,
     match CompileModules assertAbsolutePaths formatters tree options with
     | inr stage => cache stage = ∅
     | inl _ => True
     end) /\
  (forall w destDir srcDir files,
     respects st_cache keeps_entries
       (plan path_join w this_output destDir srcDir files)) /\
  (forall w outputPath,
     respects st_cache keeps_entries (container_write w outputPath)) /\
  (forall w destDir outputPath,
     respects st_cache keeps_entries
       (reconcile path_join w this_inputFiles destDir outputPath)) /\
  (forall w destDir c d,
     keeps_entries c
       (st_cache (run_pass path_join w this_inputFiles this_output
                    destDir c d).1)) /\
  (forall passes c,
     keeps_entries c
       (run_passes path_join this_inputFiles this_output passes c)).
Proof.
  repeat split.
  - intros a fs tree options. unfold CompileModules.
    destruct (setInputTree tree); [done|].
    destruct (setInputFiles _); [done|].
    destruct (setOutput _ _); [done|].
    destruct (setFormatter _ _); done.
  - intros w destDir srcDir files. apply respects_for_each; [exact _|].
    intros f. apply plan_file_keeps_entries.
  - intros w outputPath s.
    rewrite <- (container_write_same_cache w outputPath s). reflexivity.
  - intros w destDir outputPath s.
    apply keeps_hashes_entries, reconcile_keeps_hashes.
  - intros w destDir c d. apply run_pass_keeps_entries.
  - intros passes c. apply run_passes_keeps_entries.
Qed.
End Growth.

Lemma C8_entry_survives_witness :
  cache_ab !! "b.js" = Some {| hash := "hb"; content := Some "compiled b.js" |} /\
  globInputs world_a globs_js "/src" = Some ["a.js"] /\
  is_Some (st_cache (run_pass posix_join world_a globs_js "/" "/dest"
                       cache_ab ∅).1 !! "b.js").
Proof.
  split; [vm_compute; reflexivity|]. split; [reflexivity|].
  destruct (C8_cache_grows_monotonically posix_join globs_js "/")
    as (_ & _ & _ & _ & Hpass & _).
  apply (Hpass world_a "/dest" cache_ab ∅ "b.js").
  vm_compute. eauto.
Defined.

(** * More about construction *)

Section ConstructionMore.
Variable assertAbsolutePaths : JsVal -> bool.
Variable formatters : string -> JsVal.

Abbreviation construct := (CompileModules assertAbsolutePaths formatters).
Abbreviation set_formatter := (setFormatter formatters).

Lemma missing_tree_dec tree : {missing_tree tree} + {~ missing_tree tree}.
Proof.
  unfold missing_tree.
  destruct tree; try (right; intros [H|H]; discriminate); left; auto.
Qed.

Lemma setInputTree_ok tree :
  ~ missing_tree tree -> setInputTree tree = inr tree.
Proof.
  unfold missing_tree. intros H. destruct tree; simpl; try done;
    destruct H; auto.
Qed.

Lemma setInputFiles_ok files :
  isArray files = true -> exists globs, files = JArray globs /\
                                        setInputFiles files = inr globs.
Proof. destruct files; try discriminate. eauto. Qed.

(** X1. The constructor runs its four checks in the order input tree,
    input files, output, formatter, and throws the error of the first
    one that fails, whatever the later arguments are. *)
Theorem X1_first_failing_check_is_reported (tree : JsVal) (options : Options) :
  (missing_tree tree ->
   construct tree options = inl (ExpectedInputTree tree)) /\
  (~ missing_tree tree ->
   isArray (opt_inputFiles options) = false ->
   construct tree options = inl (ExpectedInputGlobs (opt_inputFiles options))) /\
  (~ missing_tree tree ->
   isArray (opt_inputFiles options) = true ->
   assertAbsolutePaths (opt_output options) = false ->
   construct tree options = inl (PathNotAbsolute (opt_output options))) /\
  (~ missing_tree tree ->
   isArray (opt_inputFiles options) = true ->
   assertAbsolutePaths (opt_output options) = true ->
   forall e, set_formatter (opt_formatter options) = inl e ->
             construct tree options = inl e).
Proof.
  unfold CompileModules. repeat split.
  - intros [-> | ->]; reflexivity.
  - intros Ht Ha. rewrite (setInputTree_ok tree Ht).
    destruct (opt_inputFiles options); simpl in *; try done.
  - intros Ht Ha Ho. rewrite (setInputTree_ok tree Ht).
    destruct (setInputFiles_ok _ Ha) as [globs [_ ->]].
    unfold setOutput. by rewrite Ho.
  - intros Ht Ha Ho e He. rewrite (setInputTree_ok tree Ht).
    destruct (setInputFiles_ok _ Ha) as [globs [_ ->]].
    unfold setOutput. by rewrite Ho, He.
Qed.

(** X2. A falsy formatter option (undefined, null, false, 0, NaN, the
    empty string) is the same as passing [formatters.DEFAULT]: the setter
    and the constructor return, or throw, the same. *)
Theorem X2_falsy_formatter_is_the_default (tree : JsVal) (options : Options) :
  truthy (opt_formatter options) = false ->
  set_formatter (opt_formatter options) = set_formatter (formatters "DEFAULT") /\
  construct tree options =
    construct tree {| opt_inputFiles := opt_inputFiles options;
                      opt_output := opt_output options;
                      opt_formatter := formatters "DEFAULT" |}.
Proof.
  intros Hf.
  assert (Hd : defaulted formatters (opt_formatter options) =
               defaulted formatters (formatters "DEFAULT")).
  { unfold defaulted. rewrite Hf. by destruct (truthy (formatters "DEFAULT")). }
  assert (Hs : set_formatter (opt_formatter options) =
               set_formatter (formatters "DEFAULT")).
  { unfold setFormatter. by rewrite Hd. }
  split; [exact Hs|]. unfold CompileModules. simpl. by rewrite Hs.
Qed.

(** X3. What [compileModules] returns, when it returns: the tree is
    there and stored as given, the input files are the elements of the
    array given, the output is the one given and passed the absolute-path
    assertion, the formatter is of type object and is either the option
    after defaulting or the instance of the function the table has under
    that name, and the cache is empty. *)
Theorem X3_constructed_stage_is_well_formed tree options stage :
  compileModules assertAbsolutePaths formatters tree options = inr stage ->
  ~ missing_tree tree /\
  inputTree stage = tree /\
  opt_inputFiles options = JArray (inputFiles stage) /\
  output stage = opt_output options /\
  assertAbsolutePaths (output stage) = true /\
  typeof (formatter stage) = TObject /\
  (formatter stage = defaulted formatters (opt_formatter options) \/
   exists name,
     defaulted formatters (opt_formatter options) = JString name /\
     formatters name = JFunction (formatter stage)) /\
  cache stage = ∅.
Proof.
  unfold compileModules, CompileModules. intros Hc.
  destruct (missing_tree_dec tree) as [Hm|Hm].
  { destruct Hm as [-> | ->]; discriminate. }
  rewrite (setInputTree_ok tree Hm) in Hc.
  destruct (opt_inputFiles options) as [| | | | | |globs| | |] eqn:Hfiles;
    try discriminate. simpl in Hc.
  unfold setOutput in Hc.
  destruct (assertAbsolutePaths (opt_output options)) eqn:Ho; [|discriminate].
  unfold setFormatter in Hc.
  destruct (resolve formatters (defaulted formatters (opt_formatter options)))
    as [e|fmt] eqn:Hr; [discriminate|].
  case_decide as Hty; [|discriminate]. injection Hc as <-. simpl.
  repeat split; try done.
  unfold resolve in Hr.
  destruct (defaulted formatters (opt_formatter options)) as [| | | | |name| | | |];
    try (injection Hr as <-; by left).
  destruct (formatters name) eqn:Hn; try discriminate.
  injection Hr as <-. right. eauto.
Qed.
End ConstructionMore.

Lemma X1_first_failing_check_witness :
  CompileModules absolute_string builtin_formatters JNull
    {| opt_inputFiles := JString "*.js"; opt_output := JString "out";
       opt_formatter := JString "amd" |} = inl (ExpectedInputTree JNull) /\
  CompileModules absolute_string builtin_formatters (JObject "tree")
    {| opt_inputFiles := JString "*.js"; opt_output := JString "out";
       opt_formatter := JString "amd" |} = inl (ExpectedInputGlobs (JString "*.js")) /\
  CompileModules absolute_string builtin_formatters (JObject "tree")
    {| opt_inputFiles := JArray [JString "*.js"]; opt_output := JString "out";
       opt_formatter := JString "amd" |} = inl (PathNotAbsolute (JString "out")) /\
  CompileModules absolute_string builtin_formatters (JObject "tree")
    {| opt_inputFiles := JArray [JString "*.js"]; opt_output := JString "/out";
       opt_formatter := JString "amd" |} = inl (NoBuiltinFormatter "amd").
Proof.
  assert (Htree : ~ missing_tree (JObject "tree")) by (intros [H|H]; discriminate).
  split; [|split; [|split]].
  - destruct (X1_first_failing_check_is_reported absolute_string
                builtin_formatters JNull
                {| opt_inputFiles := JString "*.js"; opt_output := JString "out";
                   opt_formatter := JString "amd" |}) as (H & _).
    apply H. right. reflexivity.
  - destruct (X1_first_failing_check_is_reported absolute_string
                builtin_formatters (JObject "tree")
                {| opt_inputFiles := JString "*.js"; opt_output := JString "out";
                   opt_formatter := JString "amd" |}) as (_ & H & _).
    apply H; [exact Htree | reflexivity].
  - destruct (X1_first_failing_check_is_reported absolute_string
                builtin_formatters (JObject "tree")
                {| opt_inputFiles := JArray [JString "*.js"];
                   opt_output := JString "out";
                   opt_formatter := JString "amd" |}) as (_ & _ & H & _).
    apply H; [exact Htree | reflexivity | reflexivity].
  - destruct (X1_first_failing_check_is_reported absolute_string
                builtin_formatters (JObject "tree")
                {| opt_inputFiles := JArray [JString "*.js"];
                   opt_output := JString "/out";
                   opt_formatter := JString "amd" |}) as (_ & _ & _ & H).
    apply H; [exact Htree | reflexivity | reflexivity | reflexivity].
Defined.

Lemma X2_falsy_formatter_witness :
  setFormatter builtin_formatters JNull =
    setFormatter builtin_formatters (builtin_formatters "DEFAULT") /\
  setFormatter builtin_formatters JNull = inr (JObject "BundleFormatter").
Proof.
  split; [|reflexivity].
  apply (X2_falsy_formatter_is_the_default absolute_string builtin_formatters
           (JObject "tree")
           {| opt_inputFiles := JArray []; opt_output := JString "/";
              opt_formatter := JNull |}).
  reflexivity.
Defined.

Lemma X3_constructed_stage_witness :
  exists stage,
    compileModules absolute_string builtin_formatters (JObject "tree")
      options_js = inr stage /\
    inputFiles stage = [JString "*.js"] /\
    formatter stage = JObject "BundleFormatter" /\
    typeof (formatter stage) = TObject.
Proof.
  eexists. split; [reflexivity|]. split; [reflexivity|]. split; [reflexivity|].
  eapply (X3_constructed_stage_is_well_formed absolute_string builtin_formatters
            (JObject "tree") options_js).
  reflexivity.
Defined.

(** * More about the planning loop *)

Global Instance keeps_content_preorder : PreOrder keeps_content.
Proof.
  split.
  - intros c k. destruct (c !! k) as [e|]; [eauto | done].
  - intros c1 c2 c3 H12 H23 k. specialize (H12 k). specialize (H23 k).
    destruct (c1 !! k) as [e1|].
    + destruct H12 as [e2 [He2 Hc2]]. rewrite He2 in H23.
      destruct H23 as [e3 [He3 Hc3]]. exists e3. split; [done | congruence].
    + destruct (c2 !! k) as [e2|] eqn:He2.
      * destruct H23 as [e3 [He3 Hc3]]. intros e' He'.
        assert (e' = e3) as -> by congruence. rewrite Hc3. by apply H12.
      * exact H23.
Qed.

Global Instance same_keys_preorder : PreOrder same_keys.
Proof.
  split; [by intros c | intros c1 c2 c3 H12 H23].
  unfold same_keys in *. congruence.
Qed.

Section PlanningMore.
Variable path_join : list string -> string.
Variable w : World.
Variable this_inputFiles : list JsVal.
Variable this_output : string.
Variable destDir : string.

Abbreviation plan_file := (plan_file path_join w this_output destDir).
Abbreviation plan := (plan path_join w this_output destDir).
Abbreviation run_pass :=
  (run_pass path_join w this_inputFiles this_output destDir).
Abbreviation is_fresh := (is_fresh path_join w).
Abbreviation outputPath := (path_join [destDir; this_output]).

Lemma is_fresh_entry srcDir (c : Cache) f e h :
  c !! f = Some e -> hashStats w (path_join [srcDir; f]) = Some h ->
  is_fresh srcDir c f = String.eqb (hash e) h.
Proof. intros Hc Hh. unfold is_fresh. by rewrite Hc, Hh. Qed.

Lemma is_fresh_no_entry srcDir (c : Cache) f :
  c !! f = None -> is_fresh srcDir c f = false.
Proof. intros Hc. unfold is_fresh. by rewrite Hc. Qed.

(** The identities a loop that runs to its end replays and recomputes,
    in a state whose cache agrees with [c0] on the files to come. *)
Lemma plan_classifies srcDir files : forall s s' (c0 : Cache),
  NoDup files ->
  (forall g, g ∈ files -> st_cache s !! g = c0 !! g) ->
  plan srcDir files s = (s', inr tt) ->
  replayed (st_trace s') =
    replayed (st_trace s) ++ filter (fun f => is_fresh srcDir c0 f) files /\
  recomputed (st_trace s') =
    recomputed (st_trace s) ++ filter (fun f => ~ is_fresh srcDir c0 f) files.
Proof.
  induction files as [|f files IH]; intros s s' c0 Hnd Hc0 Hrun.
  - injection Hrun as <-. by rewrite !app_nil_r.
  - apply NoDup_cons in Hnd as [Hf Hnd]. rewrite plan_cons in Hrun.
    assert (Hlook : c0 !! f = st_cache s !! f) by (symmetry; apply Hc0; left).
    destruct (hashStats w (path_join [srcDir; f])) as [h|] eqn:Hh;
      [|by rewrite plan_file_stat_fails in Hrun].
    destruct (st_cache s !! f) as [e|] eqn:He.
    + destruct (decide (hash e = h)) as [Heq|Hne].
      * rewrite (plan_file_hit _ _ _ _ _ _ _ e h He Hh Heq) in Hrun.
        apply (IH _ _ c0 Hnd) in Hrun as [Hrep Hrec].
        2:{ intros g Hg. simpl. apply Hc0. by right. }
        assert (Hfresh : is_fresh srcDir c0 f = true).
        { rewrite (is_fresh_entry _ _ _ e h Hlook Hh).
          by apply String.eqb_eq. }
        simpl in Hrep, Hrec.
        rewrite filter_cons_True by (by apply Is_true_true).
        rewrite filter_cons_False
          by (intros Hn; apply Hn; by apply Is_true_true).
        rewrite Hrep, Hrec, replayed_app, recomputed_app. simpl.
        by rewrite app_nil_r, <- app_assoc.
      * rewrite (plan_file_stale _ _ _ _ _ _ _ e h He Hh Hne) in Hrun.
        apply (IH _ _ c0 Hnd) in Hrun as [Hrep Hrec].
        2:{ intros g Hg. simpl. rewrite lookup_insert_ne by (by intros ->).
            apply Hc0. by right. }
        assert (Hfresh : is_fresh srcDir c0 f = false).
        { rewrite (is_fresh_entry _ _ _ e h Hlook Hh).
          by apply String.eqb_neq. }
        simpl in Hrep, Hrec.
        rewrite filter_cons_False by (by apply Is_true_false).
        rewrite filter_cons_True by (by apply Is_true_false).
        rewrite Hrep, Hrec, replayed_app, recomputed_app. simpl.
        by rewrite app_nil_r, <- app_assoc.
    + rewrite (plan_file_miss _ _ _ _ _ _ _ h He Hh) in Hrun.
      apply (IH _ _ c0 Hnd) in Hrun as [Hrep Hrec].
      2:{ intros g Hg. simpl. rewrite lookup_insert_ne by (by intros ->).
          apply Hc0. by right. }
      assert (Hfresh : is_fresh srcDir c0 f = false)
        by (by apply is_fresh_no_entry).
      simpl in Hrep, Hrec.
      rewrite filter_cons_False by (by apply Is_true_false).
      rewrite filter_cons_True by (by apply Is_true_false).
      rewrite Hrep, Hrec, replayed_app, recomputed_app. simpl.
      by rewrite app_nil_r, <- app_assoc.
Qed.

Lemma stats_app t u : stats (t ++ u) = stats t ++ stats u.
Proof. apply omap_app. Qed.

Lemma plan_stats srcDir files : forall s s',
  plan srcDir files s = (s', inr tt) ->
  stats (st_trace s') =
    stats (st_trace s) ++ map (fun f => path_join [srcDir; f]) files.
Proof.
  induction files as [|f files IH]; intros s s' Hrun.
  - injection Hrun as <-. by rewrite app_nil_r.
  - rewrite plan_cons in Hrun.
    destruct (hashStats w (path_join [srcDir; f])) as [h|] eqn:Hh;
      [|by rewrite plan_file_stat_fails in Hrun].
    destruct (st_cache s !! f) as [e|] eqn:He.
    + destruct (decide (hash e = h)) as [Heq|Hne].
      * rewrite (plan_file_hit _ _ _ _ _ _ _ e h He Hh Heq) in Hrun.
        apply IH in Hrun. simpl in Hrun. rewrite Hrun, stats_app. simpl.
        by rewrite <- app_assoc.
      * rewrite (plan_file_stale _ _ _ _ _ _ _ e h He Hh Hne) in Hrun.
        apply IH in Hrun. simpl in Hrun. rewrite Hrun, stats_app. simpl.
        by rewrite <- app_assoc.
    + rewrite (plan_file_miss _ _ _ _ _ _ _ h He Hh) in Hrun.
      apply IH in Hrun. simpl in Hrun. rewrite Hrun, stats_app. simpl.
      by rewrite <- app_assoc.
Qed.

Lemma later_events_no_stat u : Forall is_read_back_event u -> stats u = [].
Proof.
  induction 1 as [|e u He _ IH]; [done|]. destruct e; simpl in *; done.
Qed.

(** X4. In a pass whose loop runs to its end over a duplicate-free input
    list, the identities replayed are the input files whose entry stores
    the current fingerprint, and the identities recomputed are the other
    input files, both in input order: every input file is in one of the
    two and none in both. *)
Theorem X4_inputs_are_partitioned srcDir files c d :
  readTree w = Some srcDir ->
  globInputs w this_inputFiles srcDir = Some files ->
  NoDup files ->
  (forall f, f ∈ files -> is_Some (hashStats w (path_join [srcDir; f]))) ->
  let r := run_pass c d in
  replayed (st_trace r.1) = filter (fun f => is_fresh srcDir c f) files /\
  recomputed (st_trace r.1) = filter (fun f => ~ is_fresh srcDir c f) files /\
  replayed (st_trace r.1) ++ recomputed (st_trace r.1) ≡ₚ files.
Proof.
  intros Ht Hg Hnd Hstat. simpl.
  pose proof (plan_ok path_join w this_output destDir srcDir files
                (start c d) Hstat) as Hok.
  destruct (plan srcDir files (start c d)) as [sp [e|[]]] eqn:Hp; [done|].
  destruct (plan_classifies srcDir files (start c d) sp c Hnd (fun _ _ => eq_refl) Hp)
    as [Hrep Hrec].
  destruct (write_run_planned path_join w this_inputFiles this_output destDir
              srcDir files (start c d) sp Ht Hg Hp) as [u [Hu HPu]].
  apply read_back_events_unclassified in HPu as (Hu1 & Hu2 & _).
  unfold run_pass.
  assert (Hr1 : replayed (st_trace (write path_join w this_inputFiles
                  this_output destDir (start c d)).1) =
                filter (fun f => is_fresh srcDir c f) files).
  { rewrite Hu, cons_middle, !replayed_app, Hu1, Hrep. simpl.
    by rewrite app_nil_r. }
  assert (Hr2 : recomputed (st_trace (write path_join w this_inputFiles
                  this_output destDir (start c d)).1) =
                filter (fun f => ~ is_fresh srcDir c f) files).
  { rewrite Hu, cons_middle, !recomputed_app, Hu2, Hrec. simpl.
    by rewrite app_nil_r. }
  split; [exact Hr1|]. split; [exact Hr2|].
  rewrite Hr1, Hr2. apply filter_app_complement.
Qed.

(** X5. A loop that runs to its end stats every input file once, in input
    order, whether the file has an entry or not; nothing after the loop
    stats a file. *)
Theorem X5_every_input_is_statted_once srcDir files c d sp :
  readTree w = Some srcDir ->
  globInputs w this_inputFiles srcDir = Some files ->
  plan srcDir files (start c d) = (sp, inr tt) ->
  stats (st_trace (run_pass c d).1) =
    map (fun f => path_join [srcDir; f]) files.
Proof.
  intros Ht Hg Hp.
  destruct (write_run_planned path_join w this_inputFiles this_output destDir
              srcDir files (start c d) sp Ht Hg Hp) as [u [Hu HPu]].
  unfold run_pass. rewrite Hu, cons_middle, !stats_app.
  rewrite (plan_stats srcDir files _ _ Hp), (later_events_no_stat u HPu).
  simpl. by rewrite app_nil_r.
Qed.

Lemma plan_file_keeps_content srcDir f :
  respects st_cache keeps_content (plan_file srcDir f).
Proof.
  intros s.
  destruct (hashStats w (path_join [srcDir; f])) as [h|] eqn:Hh;
    [|rewrite plan_file_stat_fails by done; reflexivity].
  destruct (st_cache s !! f) as [e|] eqn:He.
  - destruct (decide (hash e = h)) as [Heq|Hne].
    + rewrite (plan_file_hit _ _ _ _ _ _ _ e h He Hh Heq). reflexivity.
    + rewrite (plan_file_stale _ _ _ _ _ _ _ e h He Hh Hne). simpl.
      intros k. destruct (decide (k = f)) as [->|Hk].
      * rewrite He, lookup_insert_eq. eauto.
      * rewrite lookup_insert_ne by done.
        destruct (st_cache s !! k); [eauto | done].
  - rewrite (plan_file_miss _ _ _ _ _ _ _ h He Hh). simpl.
    intros k. destruct (decide (k = f)) as [->|Hk].
    + rewrite He, lookup_insert_eq. by intros e' [= <-].
    + rewrite lookup_insert_ne by done.
      destruct (st_cache s !! k); [eauto | done].
Qed.

(** X6. Neither the loop nor [container.write] sets or changes the
    content of an entry, however they end: an entry that was there keeps
    its content, and a new entry has none.  Content comes from the
    read-back alone. *)
Theorem X6_only_the_read_back_sets_content srcDir files outputPath' s k :
  let s1 := (plan srcDir files s).1 in
  let s2 := (container_write w outputPath' s1).1 in
  match st_cache s !! k with
  | Some e => exists e', st_cache s2 !! k = Some e' /\ content e' = content e
  | None => forall e', st_cache s2 !! k = Some e' -> content e' = None
  end.
Proof.
  simpl.
  rewrite <- (container_write_same_cache w outputPath' (plan srcDir files s).1).
  apply (respects_for_each st_cache keeps_content (plan_file srcDir) files
           (plan_file_keeps_content srcDir) s k).
Qed.
End PlanningMore.

(** * More about the read-back and the whole pass *)

Lemma for_each_app {A} (body : A -> M unit) (l1 l2 : list A) (s : State) :
  for_each body (l1 ++ l2) s =
    match for_each body l1 s with
    | (s', inl e) => (s', inl e)
    | (s', inr _) => for_each body l2 s'
    end.
Proof.
  revert s. induction l1 as [|x l1 IH]; intros s; [done|].
  simpl. unfold mbind, M_bind.
  destruct (body x s) as [s' [e|[]]]; [done | apply IH].
Qed.

Lemma for_each_getModule files : forall s,
  for_each getModule files s =
    ({| st_cache := st_cache s; st_disk := st_disk s;
        st_container := st_container s ++ files;
        st_trace := st_trace s ++ map EvGetModule files |},
     inr tt).
Proof.
  induction files as [|f files IH]; intros s.
  - simpl. rewrite !app_nil_r. by destruct s.
  - simpl. unfold mbind, M_bind. unfold getModule at 1. run_monad.
    unfold with_container. simpl. rewrite IH. simpl.
    by rewrite <- !app_assoc.
Qed.

Section PassMore.
Variable path_join : list string -> string.
Variable w : World.
Variable this_inputFiles : list JsVal.
Variable this_output : string.
Variable destDir : string.

Abbreviation plan_file := (plan_file path_join w this_output destDir).
Abbreviation plan := (plan path_join w this_output destDir).
Abbreviation write := (write path_join w this_inputFiles this_output destDir).
Abbreviation run_pass :=
  (run_pass path_join w this_inputFiles this_output destDir).
Abbreviation write_plain :=
  (write_plain path_join w this_inputFiles this_output destDir).
Abbreviation read_back := (read_back path_join).
Abbreviation reconcile := (reconcile path_join w this_inputFiles destDir).
Abbreviation outputPath := (path_join [destDir; this_output]).
Abbreviation transformed := (transformed path_join this_output destDir).
Abbreviation up_to_date := (up_to_date path_join w).
Abbreviation dest := (fun f => path_join [destDir; this_output; f]).

Lemma reconcile_same_keys p : respects st_cache same_keys (reconcile p).
Proof.
  unfold reconcile, glob_outputs, read_back, readFileSync.
  respects_auto. unfold same_keys. apply dom_alter_L.
Qed.

Lemma reconcile_same_container p : respects st_container eq (reconcile p).
Proof.
  unfold reconcile, glob_outputs, read_back, readFileSync. respects_auto.
Qed.

(** X7. The read-back, however it ends, writes nothing to the
    destination, leaves the container alone, and neither adds nor removes
    an entry of the cache: the identities with an entry are the same
    before and after. *)
Theorem X7_read_back_only_assigns_content p s :
  let s' := (reconcile p s).1 in
  st_disk s' = st_disk s /\
  st_container s' = st_container s /\
  dom (st_cache s') = dom (st_cache s).
Proof.
  simpl. split; [|split].
  - symmetry. apply (reconcile_same_disk path_join w this_inputFiles destDir p s).
  - symmetry. apply (reconcile_same_container p s).
  - apply (reconcile_same_keys p s).
Qed.

(** X8. When the loop has run to its end and [container.write] throws,
    or returns and the glob over the destination throws, the pass ends
    with that error; the cache is as the loop left it, the destination as
    [container.write] left it, and no content has been read back. *)
Theorem X8_failure_after_the_loop srcDir files c d sp :
  readTree w = Some srcDir ->
  globInputs w this_inputFiles srcDir = Some files ->
  plan srcDir files (start c d) = (sp, inr tt) ->
  let t := containerWrite w (st_container sp) outputPath (st_disk sp) in
  (t.2 = false ->
   run_pass c d = (transformed sp t.1, inl TransformFailed)) /\
  (t.2 = true ->
   globOutputs w this_inputFiles destDir t.1 = None ->
   run_pass c d = (transformed sp t.1, inl GlobFailed)) /\
  st_cache (transformed sp t.1) = st_cache sp /\
  reconciled (st_trace (transformed sp t.1)) = [].
Proof.
  intros Ht Hg Hp. simpl. unfold run_pass.
  rewrite (write_run _ _ _ _ _ srcDir files _ Ht Hg). fold plan. rewrite Hp.
  rewrite container_write_run. simpl.
  destruct (containerWrite w (st_container sp) outputPath (st_disk sp))
    as [d' ok]. simpl. repeat split.
  - by intros ->.
  - intros -> Ho. unfold reconcile, glob_outputs. run_monad. by rewrite Ho.
  - pose proof (plan_trace path_join w this_output destDir srcDir files
                  (start c d)) as [v [Hv HPv]].
    fold plan in Hv. rewrite Hp in Hv. simpl in Hv.
    rewrite reconciled_app, Hv.
    by apply planning_events_write_nothing in HPv as [_ ->].
Qed.

Lemma read_back_present p outs : forall s,
  (forall g, g ∈ outs ->
     is_Some (st_cache s !! g) /\ is_Some (st_disk s !! path_join [p; g])) ->
  exists s', for_each (read_back p) outs s = (s', inr tt).
Proof.
  induction outs as [|g outs IH]; intros s Hall; [by exists s|].
  destruct (Hall g) as [[e He] [data Hd]]; [left|].
  simpl. unfold mbind, M_bind. rewrite (read_back_sets _ _ _ _ data e Hd He).
  apply IH. intros g' Hg'. simpl.
  destruct (Hall g') as [Hc' Hd']; [by right|]. split; [|done].
  rewrite lookup_insert. by case_decide.
Qed.

(** X9. A read-back that fails part way through has refreshed the
    entries of the paths before the failing one and of no other.  The
    error is the failed read when the file is missing under the output
    path, the missing entry otherwise. *)
Theorem X9_read_back_stops_part_way p s l1 f l2 :
  globOutputs w this_inputFiles destDir (st_disk s) = Some (l1 ++ f :: l2) ->
  (forall g, g ∈ l1 ->
     is_Some (st_cache s !! g) /\ is_Some (st_disk s !! path_join [p; g])) ->
  st_cache s !! f = None \/ st_disk s !! path_join [p; f] = None ->
  let r := reconcile p s in
  r.2 = inl (match st_disk s !! path_join [p; f] with
             | Some _ => NoCacheEntry f
             | None => ReadFailed (path_join [p; f])
             end) /\
  (forall g, g ∈ l1 ->
     exists e data,
       st_cache s !! g = Some e /\
       st_disk s !! path_join [p; g] = Some data /\
       st_cache r.1 !! g = Some {| hash := hash e; content := Some data |}) /\
  (forall g, g ∉ l1 -> st_cache r.1 !! g = st_cache s !! g).
Proof.
  intros Ho Hl1 Hf. simpl.
  rewrite (reconcile_run _ _ _ _ _ _ _ Ho), for_each_app.
  destruct (read_back_present p l1 s Hl1) as [s1 Hrun1]. rewrite Hrun1.
  apply read_back_all in Hrun1 as (Hd1 & _ & _ & Hin & Hout).
  assert (Hfl : f ∉ l1).
  { intros Hfin. destruct (Hl1 f Hfin) as [[e He] [data Hd]].
    destruct Hf; congruence. }
  simpl. unfold mbind, M_bind.
  destruct (st_disk s !! path_join [p; f]) as [data|] eqn:Hdf.
  - destruct Hf as [Hf|Hf]; [|done].
    rewrite (read_back_no_entry _ _ _ _ data) by (by rewrite ?Hd1, ?Hout).
    auto.
  - rewrite read_back_unreadable by (by rewrite Hd1). auto.
Qed.

Lemma completed_pass_up_to_date srcDir files c d s1 :
  readTree w = Some srcDir ->
  globInputs w this_inputFiles srcDir = Some files ->
  run_pass c d = (s1, inr tt) ->
  forall f, f ∈ files -> up_to_date srcDir f (st_cache s1).
Proof.
  intros Ht Hg Hrun f Hf.
  destruct (write_completed path_join w this_inputFiles this_output destDir
              srcDir files (start c d) s1 Ht Hg Hrun)
    as (sp & d' & outs & Hp & _ & _ & Hrb).
  apply (up_to_date_keeps_hashes path_join w srcDir f (st_cache sp)).
  - pose proof (respects_for_each st_cache keeps_hashes
                  (read_back outputPath) outs
                  (read_back_keeps_hashes path_join outputPath)
                  (transformed sp d')) as Hk.
    by rewrite Hrb in Hk.
  - by apply (plan_completed_up_to_date path_join w this_output destDir
                srcDir files (start c d) sp).
Qed.

(** What a loop that only replays leaves in the destination. *)
Lemma plan_replays_to_disk srcDir files : forall s,
  (forall f, f ∈ files -> up_to_date srcDir f (st_cache s)) ->
  exists s',
    plan srcDir files s = (s', inr tt) /\
    (forall q, (forall f, f ∈ files -> dest f <> q) ->
               st_disk s' !! q = st_disk s !! q) /\
    (forall f e, f ∈ files -> st_cache s !! f = Some e ->
       (forall g, g ∈ files -> dest g = dest f -> g = f) ->
       st_disk s' !! dest f = Some (to_string (content e))).
Proof.
  induction files as [|f0 files IH]; intros s Hup.
  - exists s. repeat split; try done. intros f e Hf. by apply elem_of_nil in Hf.
  - destruct (Hup f0) as [e0 [He0 Hh0]]; [left|].
    rewrite plan_cons, (plan_file_hit _ _ _ _ _ _ _ e0 (hash e0)) by done.
    match goal with |- context [plan srcDir files ?s1] =>
      destruct (IH s1) as (s' & Hrun & Hother & Hwritten) end.
    { intros g Hg. apply Hup. by right. }
    exists s'. split; [exact Hrun|]. simpl in *. split.
    + intros q Hq. rewrite Hother by (intros g Hg; apply Hq; by right).
      apply lookup_insert_ne. apply Hq. left.
    + intros f e Hf He Hinj. destruct (decide (f ∈ files)) as [Hin|Hnin].
      * apply Hwritten; [done | done |].
        intros g Hg. apply Hinj. by right.
      * apply elem_of_cons in Hf as [-> | Hf]; [|done].
        assert (e = e0) as -> by congruence.
        rewrite Hother; [apply lookup_insert_eq|].
        intros g Hg Heq. apply Hnin.
        rewrite <- (Hinj g); [done | by right | done].
Qed.

(** X10. What the read-back stored is what the next pass replays.  After
    a pass that returned normally, the loop of a second pass in the same
    world, on any destination tree, runs to its end, and for an input
    identity that the read-back glob had returned it puts at the replay
    path the text the first pass had under the output path, provided no
    other input identity has the same replay path. *)
Theorem X10_replay_writes_what_was_read_back srcDir files c d s1 outs d2 :
  readTree w = Some srcDir ->
  globInputs w this_inputFiles srcDir = Some files ->
  run_pass c d = (s1, inr tt) ->
  globOutputs w this_inputFiles destDir (st_disk s1) = Some outs ->
  exists s2,
    plan srcDir files (start (st_cache s1) d2) = (s2, inr tt) /\
    forall f, f ∈ files -> f ∈ outs ->
      (forall g, g ∈ files -> dest g = dest f -> g = f) ->
      is_Some (st_disk s1 !! path_join [outputPath; f]) /\
      st_disk s2 !! dest f = st_disk s1 !! path_join [outputPath; f].
Proof.
  intros Ht Hg Hrun Ho.
  pose proof (completed_pass_up_to_date srcDir files c d s1 Ht Hg Hrun) as Hup.
  destruct (write_completed path_join w this_inputFiles this_output destDir
              srcDir files (start c d) s1 Ht Hg Hrun)
    as (sp & d' & outs1 & _ & _ & Ho1 & Hrb).
  apply read_back_all in Hrb as (Hd1 & _ & _ & Hin & _). simpl in Hd1, Hin.
  rewrite Hd1 in Ho. assert (outs = outs1) as -> by congruence.
  destruct (plan_replays_to_disk srcDir files (start (st_cache s1) d2) Hup)
    as (s2 & Hp2 & _ & Hwritten).
  exists s2. split; [exact Hp2|]. intros f Hf Hfo Hinj.
  destruct (Hin f Hfo) as [e [data [_ [Hdata Hc1]]]].
  rewrite Hd1, Hdata. split; [eauto|].
  by rewrite (Hwritten f _ Hf Hc1 Hinj).
Qed.
End PassMore.

Lemma transform_calls_app t u :
  transform_calls (t ++ u) = transform_calls t ++ transform_calls u.
Proof. apply omap_app. Qed.

Lemma planning_events_no_transform u :
  Forall is_planning_event u -> transform_calls u = [].
Proof.
  induction 1 as [|e u He _ IH]; [done|]. destruct e; simpl in *; done.
Qed.

Lemma read_back_events_no_transform u :
  Forall is_read_back_event u -> transform_calls u = [].
Proof.
  induction 1 as [|e u He _ IH]; [done|]. destruct e; simpl in *; done.
Qed.

Lemma get_module_events_no_transform files :
  transform_calls (map EvGetModule files) = [].
Proof. induction files as [|f files IH]; [done | exact IH]. Qed.

Section PlainAndFrame.
Variable path_join : list string -> string.
Variable w : World.
Variable this_inputFiles : list JsVal.
Variable this_output : string.
Variable destDir : string.

Abbreviation plan := (plan path_join w this_output destDir).
Abbreviation run_pass :=
  (run_pass path_join w this_inputFiles this_output destDir).
Abbreviation write_plain :=
  (write_plain path_join w this_inputFiles this_output destDir).
Abbreviation reconcile := (reconcile path_join w this_inputFiles destDir).
Abbreviation outputPath := (path_join [destDir; this_output]).

Lemma write_plain_run srcDir files s :
  readTree w = Some srcDir ->
  globInputs w this_inputFiles srcDir = Some files ->
  write_plain s =
    let t := containerWrite w (st_container s ++ files) outputPath (st_disk s) in
    ({| st_cache := st_cache s; st_disk := t.1;
        st_container := st_container s ++ files;
        st_trace := (st_trace s ++ map EvGetModule files) ++
                    [EvContainerWrite outputPath (st_container s ++ files)] |},
     if t.2 then inr tt else inl TransformFailed).
Proof.
  intros Ht Hg. unfold write_plain, read_tree, glob_inputs.
  rewrite Ht. run_monad. rewrite Hg, for_each_getModule.
  by rewrite container_write_run.
Qed.

Lemma plan_all_missing_disk srcDir files : forall s,
  NoDup files ->
  (forall f, f ∈ files -> st_cache s !! f = None) ->
  (forall f, f ∈ files -> is_Some (hashStats w (path_join [srcDir; f]))) ->
  st_disk (plan srcDir files s).1 = st_disk s.
Proof.
  induction files as [|f files IH]; intros s Hnd Hnone Hstat; [done|].
  apply NoDup_cons in Hnd as [Hf Hnd].
  destruct (Hstat f) as [h Hh]; [left|].
  rewrite plan_cons, (plan_file_miss _ _ _ _ _ _ _ h);
    [|apply Hnone; left|done].
  rewrite IH; [done | done | |].
  - intros g Hg. simpl. rewrite lookup_insert_ne; [|by intros ->].
    apply Hnone. by right.
  - intros g Hg. apply Hstat. by right.
Qed.

(** X11. On an empty cache the caching [write] hands the transform what
    the [write] without a cache hands it: one call of [container.write],
    with the same output path and with every input file as a module, in
    input order, and the same destination tree afterwards.  The [write]
    without a cache leaves the cache alone and returns normally exactly
    when [container.write] does. *)
Theorem X11_cold_pass_transforms_like_plain_write srcDir files c d :
  readTree w = Some srcDir ->
  globInputs w this_inputFiles srcDir = Some files ->
  NoDup files ->
  (forall f, f ∈ files -> is_Some (hashStats w (path_join [srcDir; f]))) ->
  let rc := run_pass ∅ d in
  let rp := write_plain (start c d) in
  transform_calls (st_trace rp.1) = [(outputPath, files)] /\
  transform_calls (st_trace rc.1) = [(outputPath, files)] /\
  st_disk rp.1 = (containerWrite w files outputPath d).1 /\
  st_disk rc.1 = st_disk rp.1 /\
  st_cache rp.1 = c /\
  (rp.2 = inr tt <-> (containerWrite w files outputPath d).2 = true).
Proof.
  intros Ht Hg Hnd Hstat. simpl.
  rewrite (write_plain_run srcDir files (start c d) Ht Hg). simpl.
  destruct (plan_all_missing path_join w this_output destDir srcDir files
              (start ∅ d) Hnd) as (sp & Hp & _ & _ & Hcon);
    [by intros f _ | done |].
  pose proof (plan_all_missing_disk srcDir files (start ∅ d) Hnd) as Hdisk.
  fold plan in Hp. rewrite Hp in Hdisk. simpl in Hcon, Hdisk.
  pose proof (plan_trace path_join w this_output destDir srcDir files
                (start ∅ d)) as [v [Hv HPv]].
  fold plan in Hv. rewrite Hp in Hv. simpl in Hv.
  unfold run_pass. rewrite (write_run _ _ _ _ _ srcDir files _ Ht Hg).
  fold plan. rewrite Hp, container_write_run. simpl.
  rewrite Hcon, Hdisk; [|by intros f _ | done].
  assert (Hcalls : transform_calls
            (st_trace sp ++ [EvContainerWrite outputPath files]) =
            [(outputPath, files)]).
  { rewrite transform_calls_app, Hv.
    by rewrite (planning_events_no_transform v HPv). }
  split; [|split; [|split; [|split; [|split]]]]; try done.
  - by rewrite !transform_calls_app, get_module_events_no_transform.
  - destruct (containerWrite w files outputPath d) as [d' [|]]; simpl; [|done].
    match goal with |- context [reconcile ?p ?s2] =>
      destruct (reconcile_trace path_join w this_inputFiles destDir p s2)
        as [u [Hu HPu]] end.
    fold reconcile in Hu. rewrite Hu. simpl.
    rewrite transform_calls_app, Hcalls.
    by rewrite (read_back_events_no_transform u HPu).
  - destruct (containerWrite w files outputPath d) as [d' [|]]; simpl; [|done].
    match goal with |- context [reconcile ?p ?s2] =>
      by rewrite <- (reconcile_same_disk path_join w this_inputFiles destDir p s2)
    end.
  - destruct (containerWrite w files outputPath d) as [d' [|]]; simpl; done.
Qed.

Lemma run_pass_outside_inputs srcDir files c d k :
  readTree w = Some srcDir ->
  globInputs w this_inputFiles srcDir = Some files ->
  k ∉ files ->
  let r := run_pass c d in
  (c !! k = None -> st_cache r.1 !! k = None) /\
  (forall e, c !! k = Some e ->
     exists e', st_cache r.1 !! k = Some e' /\ hash e' = hash e).
Proof.
  intros Ht Hg Hk. simpl. unfold run_pass.
  rewrite (write_run _ _ _ _ _ srcDir files _ Ht Hg). fold plan.
  pose proof (plan_same_outside path_join w this_output destDir srcDir files
                (start c d) k Hk) as Hsame.
  fold plan in Hsame. simpl in Hsame.
  destruct (plan srcDir files (start c d)) as [sp [e|[]]]; simpl in *.
  { rewrite Hsame. eauto. }
  rewrite container_write_run. simpl.
  destruct (containerWrite w (st_container sp) outputPath (st_disk sp))
    as [d' [|]]; simpl; [|rewrite Hsame; eauto].
  match goal with |- context [reconcile ?p ?s2] =>
    pose proof (reconcile_same_keys path_join w this_inputFiles destDir p s2)
      as Hkeys;
    pose proof (reconcile_keeps_hashes path_join w this_inputFiles destDir p s2)
      as Hhashes
  end.
  fold reconcile in Hkeys, Hhashes. unfold same_keys in Hkeys.
  simpl in Hkeys, Hhashes. split.
  - intros Hnone. apply not_elem_of_dom. rewrite Hkeys.
    apply not_elem_of_dom. by rewrite Hsame.
  - intros e He. apply Hhashes. by rewrite Hsame.
Qed.

(** X12. A pass, however it ends, creates no entry for a path outside
    its input list and leaves the fingerprint of such an entry as it
    was. *)
Theorem X12_entries_outside_the_inputs srcDir files c d k :
  readTree w = Some srcDir ->
  globInputs w this_inputFiles srcDir = Some files ->
  k ∉ files ->
  let r := run_pass c d in
  (c !! k = None -> st_cache r.1 !! k = None) /\
  (forall e, c !! k = Some e ->
     exists e', st_cache r.1 !! k = Some e' /\ hash e' = hash e).
Proof. apply run_pass_outside_inputs. Qed.

(** X14. The loop, however it ends, writes to the destination at the
    replay paths of its input files and nowhere else. *)
Theorem X14_loop_writes_only_replay_paths srcDir files s q :
  (forall f, f ∈ files -> path_join [destDir; this_output; f] <> q) ->
  st_disk (plan srcDir files s).1 !! q = st_disk s !! q.
Proof.
  revert s. induction files as [|f files IH]; intros s Hq; [done|].
  rewrite plan_cons.
  assert (Hrest : forall f', f' ∈ files ->
                    path_join [destDir; this_output; f'] <> q)
    by (intros f' Hf'; apply Hq; by right).
  destruct (hashStats w (path_join [srcDir; f])) as [h|] eqn:Hh;
    [|by rewrite plan_file_stat_fails].
  destruct (st_cache s !! f) as [e|] eqn:He.
  - destruct (decide (hash e = h)) as [Heq|Hne].
    + rewrite (plan_file_hit _ _ _ _ _ _ _ e h He Hh Heq).
      rewrite IH by done. simpl. apply lookup_insert_ne, Hq. left.
    + rewrite (plan_file_stale _ _ _ _ _ _ _ e h He Hh Hne). by rewrite IH.
  - rewrite (plan_file_miss _ _ _ _ _ _ _ h He Hh). by rewrite IH.
Qed.
End PlainAndFrame.

(** * A pass after the sources have changed *)

Section NextPass.
Variable path_join : list string -> string.
Variable w1 w2 : World.
Variable this_inputFiles : list JsVal.
Variable this_output : string.
Variable destDir : string.

Abbreviation first_pass :=
  (run_pass path_join w1 this_inputFiles this_output destDir).
Abbreviation next_pass :=
  (run_pass path_join w2 this_inputFiles this_output destDir).

(** X13. After a pass that returned normally, a pass in a changed world
    whose loop runs to its end over a duplicate-free input list
    recomputes an input file that was an input before exactly when its
    fingerprint is not the one it had, replays it exactly when it is, and
    recomputes every input file that is new and had no entry. *)
Theorem X13_next_pass_recomputes_what_changed
    srcDir1 files1 c d s1 srcDir2 files2 d2 :
  readTree w1 = Some srcDir1 ->
  globInputs w1 this_inputFiles srcDir1 = Some files1 ->
  first_pass c d = (s1, inr tt) ->
  readTree w2 = Some srcDir2 ->
  globInputs w2 this_inputFiles srcDir2 = Some files2 ->
  NoDup files2 ->
  (forall f, f ∈ files2 -> is_Some (hashStats w2 (path_join [srcDir2; f]))) ->
  let r := next_pass (st_cache s1) d2 in
  (forall f, f ∈ files2 -> f ∈ files1 ->
     (f ∈ recomputed (st_trace r.1) <->
      hashStats w2 (path_join [srcDir2; f]) <>
      hashStats w1 (path_join [srcDir1; f])) /\
     (f ∈ replayed (st_trace r.1) <->
      hashStats w2 (path_join [srcDir2; f]) =
      hashStats w1 (path_join [srcDir1; f]))) /\
  (forall f, f ∈ files2 -> f ∉ files1 -> c !! f = None ->
     f ∈ recomputed (st_trace r.1)).
Proof.
  intros Ht1 Hg1 Hrun1 Ht2 Hg2 Hnd Hstat. simpl.
  pose proof (plan_ok path_join w2 this_output destDir srcDir2 files2
                (start (st_cache s1) d2) Hstat) as Hok.
  destruct (plan path_join w2 this_output destDir srcDir2 files2
              (start (st_cache s1) d2)) as [sp [e|[]]] eqn:Hp; [done|].
  destruct (plan_classifies path_join w2 this_output destDir srcDir2 files2
              (start (st_cache s1) d2) sp (st_cache s1) Hnd
              (fun _ _ => eq_refl) Hp) as [Hrep Hrec].
  destruct (write_run_planned path_join w2 this_inputFiles this_output destDir
              srcDir2 files2 (start (st_cache s1) d2) sp Ht2 Hg2 Hp)
    as [u [Hu HPu]].
  apply read_back_events_unclassified in HPu as (Hu1 & Hu2 & _).
  unfold run_pass. rewrite Hu, cons_middle.
  rewrite !replayed_app, !recomputed_app, Hu1, Hu2, Hrep, Hrec. simpl.
  rewrite !app_nil_r. split.
  - intros f Hf2 Hf1.
    destruct (completed_pass_up_to_date path_join w1 this_inputFiles
                this_output destDir srcDir1 files1 c d s1 Ht1 Hg1 Hrun1 f Hf1)
      as [e [He Hh1]].
    destruct (Hstat f Hf2) as [h2 Hh2].
    rewrite !list_elem_of_filter, Hh1, Hh2.
    rewrite (is_fresh_entry path_join w2 srcDir2 (st_cache s1) f e h2 He Hh2).
    destruct (String.eqb_spec (hash e) h2) as [Heq|Hne]; simpl.
    + subst h2. split; split; [by intros [H _] | done | done | by intros _].
    + split; split.
      * intros _ [= Heq]. by destruct Hne.
      * intros _. split; [by intros [] | done].
      * by intros [[] _].
      * intros [= Heq]. by destruct Hne.
  - intros f Hf2 Hf1 Hnone. rewrite list_elem_of_filter. split; [|done].
    destruct (run_pass_outside_inputs path_join w1 this_inputFiles this_output
                destDir srcDir1 files1 c d f Ht1 Hg1 Hf1) as [Hstill _].
    specialize (Hstill Hnone). rewrite Hrun1 in Hstill. simpl in Hstill.
    apply Is_true_false.
    apply (is_fresh_no_entry path_join w2 srcDir2 (st_cache s1) f Hstill).
Qed.
End NextPass.

(** * The concrete world again *)

Lemma NoDup_ab : NoDup ["a.js"; "b.js"].
Proof.
  apply NoDup_cons. split; [|apply NoDup_singleton].
  intros H. apply list_elem_of_singleton in H. discriminate.
Defined.

Lemma stats_ab f :
  f ∈ ["a.js"; "b.js"] ->
  is_Some (hashStats world_ab (posix_join ["/src"; f])).
Proof.
  intros Hf. apply elem_of_cons in Hf as [-> | Hf].
  - vm_compute. eauto.
  - apply list_elem_of_singleton in Hf as ->. vm_compute. eauto.
Defined.

Lemma X4_partition_witness :
  let r := pass_ab cache_a_edited ∅ in
  replayed (st_trace r.1) = ["b.js"] /\
  recomputed (st_trace r.1) = ["a.js"].
Proof.
  destruct (X4_inputs_are_partitioned posix_join world_ab globs_js "/" "/dest"
              "/src" ["a.js"; "b.js"] cache_a_edited ∅)
    as (Hrep & Hrec & _).
  - reflexivity.
  - reflexivity.
  - exact NoDup_ab.
  - exact stats_ab.
  - split.
    + etransitivity; [exact Hrep | vm_compute; reflexivity].
    + etransitivity; [exact Hrec | vm_compute; reflexivity].
Defined.

Lemma X5_stats_witness :
  stats (st_trace (pass_ab cache_ab ∅).1) = ["/src/a.js"; "/src/b.js"].
Proof.
  pose (sp := (plan posix_join world_ab "/" "/dest" "/src" ["a.js"; "b.js"]
                 (start cache_ab ∅)).1).
  etransitivity.
  - apply (X5_every_input_is_statted_once posix_join world_ab globs_js "/"
             "/dest" "/src" ["a.js"; "b.js"] cache_ab ∅ sp).
    + reflexivity.
    + reflexivity.
    + vm_compute. reflexivity.
  - vm_compute. reflexivity.
Defined.

Lemma X8_transform_throws_witness :
  let r := run_pass posix_join world_a_throwing globs_js "/" "/dest" ∅ ∅ in
  r.2 = inl TransformFailed /\
  st_cache r.1 !! "a.js" = Some entry_a_no_content /\
  reconciled (st_trace r.1) = [].
Proof.
  pose (sp := (plan posix_join world_a_throwing "/" "/dest" "/src" ["a.js"]
                 (start ∅ ∅)).1).
  destruct (X8_failure_after_the_loop posix_join world_a_throwing globs_js "/"
              "/dest" "/src" ["a.js"] ∅ ∅ sp) as (Hthrow & _ & _ & _).
  - reflexivity.
  - reflexivity.
  - vm_compute. reflexivity.
  - rewrite Hthrow by reflexivity. vm_compute. repeat split.
Defined.

Lemma X9_read_back_stops_witness :
  let s := {| st_cache := {[ "a.js" := entry_a_no_content ]};
              st_disk := (compile_with_helpers ["a.js"] "/dest/" ∅).1;
              st_container := ["a.js"];
              st_trace := [] |} in
  let r := reconcile posix_join world_helpers globs_js "/dest" "/dest/" s in
  r.2 = inl (NoCacheEntry "helpers.js") /\
  st_cache r.1 !! "a.js" = Some entry_a /\
  st_cache r.1 !! "helpers.js" = None.
Proof.
  set (s := {| st_cache := {[ "a.js" := entry_a_no_content ]};
               st_disk := (compile_with_helpers ["a.js"] "/dest/" ∅).1;
               st_container := ["a.js"];
               st_trace := [] |}).
  destruct (X9_read_back_stops_part_way posix_join world_helpers globs_js
              "/dest" "/dest/" s ["a.js"] "helpers.js" [])
    as (Herr & Hin & Hout).
  - vm_compute. reflexivity.
  - intros g Hg. apply list_elem_of_singleton in Hg as ->.
    split; vm_compute; eauto.
  - left. vm_compute. reflexivity.
  - simpl. split; [|split].
    + etransitivity; [exact Herr | vm_compute; reflexivity].
    + destruct (Hin "a.js") as [e [data [He [Hd Hc]]]]; [left|].
      vm_compute in He. injection He as <-.
      vm_compute in Hd. injection Hd as <-.
      exact Hc.
    + rewrite Hout; [vm_compute; reflexivity|].
      intros H. apply list_elem_of_singleton in H. discriminate.
Defined.

Lemma X10_replay_witness :
  exists s2,
    plan posix_join world_ab "/" "/dest" "/src" ["a.js"; "b.js"]
      (start cache_ab ∅) = (s2, inr tt) /\
    st_disk s2 !! "/dest/a.js" = Some "compiled a.js".
Proof.
  destruct (X10_replay_writes_what_was_read_back posix_join world_ab globs_js
              "/" "/dest" "/src" ["a.js"; "b.js"] ∅ ∅ (pass_ab ∅ ∅).1
              ["a.js"; "b.js"] ∅) as (s2 & Hp & Hsame).
  - reflexivity.
  - reflexivity.
  - vm_compute. reflexivity.
  - vm_compute. reflexivity.
  - exists s2. split; [exact Hp|].
    destruct (Hsame "a.js") as [_ Heq].
    + left.
    + left.
    + intros g Hg Hd. apply elem_of_cons in Hg as [-> | Hg]; [done|].
      apply list_elem_of_singleton in Hg as ->. vm_compute in Hd. discriminate.
    + etransitivity; [exact Heq | vm_compute; reflexivity].
Defined.

Lemma X11_cold_pass_witness :
  let rc := pass_ab ∅ ∅ in
  let rp := write_plain posix_join world_ab globs_js "/" "/dest"
              (start cache_ab ∅) in
  transform_calls (st_trace rc.1) = [("/dest/", ["a.js"; "b.js"])] /\
  transform_calls (st_trace rp.1) = [("/dest/", ["a.js"; "b.js"])] /\
  st_disk rc.1 = st_disk rp.1 /\
  st_cache rp.1 = cache_ab.
Proof.
  destruct (X11_cold_pass_transforms_like_plain_write posix_join world_ab
              globs_js "/" "/dest" "/src" ["a.js"; "b.js"] cache_ab ∅)
    as (Hp & Hc & _ & Hd & Hcache & _).
  - reflexivity.
  - reflexivity.
  - exact NoDup_ab.
  - exact stats_ab.
  - split; [exact Hc|]. split; [exact Hp|]. split; [exact Hd | exact Hcache].
Defined.

Lemma X12_outside_entry_witness :
  let r := run_pass posix_join world_a globs_js "/" "/dest" cache_ab ∅ in
  exists e', st_cache r.1 !! "b.js" = Some e' /\ hash e' = "hb".
Proof.
  destruct (X12_entries_outside_the_inputs posix_join world_a globs_js "/"
              "/dest" "/src" ["a.js"] cache_ab ∅ "b.js") as [_ Hkept].
  - reflexivity.
  - reflexivity.
  - intros H. apply list_elem_of_singleton in H. discriminate.
  - apply (Hkept {| hash := "hb"; content := Some "compiled b.js" |}).
    vm_compute. reflexivity.
Defined.

Lemma X13_next_pass_witness :
  let r := run_pass posix_join world_abc_edited globs_js "/" "/dest"
             cache_ab ∅ in
  "a.js" ∈ recomputed (st_trace r.1) /\
  "b.js" ∈ replayed (st_trace r.1) /\
  "c.js" ∈ recomputed (st_trace r.1).
Proof.
  destruct (X13_next_pass_recomputes_what_changed posix_join world_ab
              world_abc_edited globs_js "/" "/dest"
              "/src" ["a.js"; "b.js"] ∅ ∅ (pass_ab ∅ ∅).1
              "/src" ["a.js"; "b.js"; "c.js"] ∅) as [Hold Hnew].
  - reflexivity.
  - reflexivity.
  - vm_compute. reflexivity.
  - reflexivity.
  - reflexivity.
  - apply NoDup_cons. split.
    + intros H. apply elem_of_cons in H as [H|H]; [discriminate|].
      apply list_elem_of_singleton in H. discriminate.
    + apply NoDup_cons. split; [|apply NoDup_singleton].
      intros H. apply list_elem_of_singleton in H. discriminate.
  - intros f Hf. apply elem_of_cons in Hf as [-> | Hf]; [vm_compute; eauto|].
    apply elem_of_cons in Hf as [-> | Hf]; [vm_compute; eauto|].
    apply list_elem_of_singleton in Hf as ->. vm_compute. eauto.
  - split; [|split].
    + apply (Hold "a.js"); [left | left |]. vm_compute. discriminate.
    + apply (Hold "b.js"); [right; left | right; left |].
      vm_compute. reflexivity.
    + apply (Hnew "c.js"); [right; right; left | | reflexivity].
      intros H. apply elem_of_cons in H as [H|H]; [discriminate|].
      apply list_elem_of_singleton in H. discriminate.
Defined.

Lemma X14_loop_writes_witness :
  st_disk (plan posix_join world_ab "/" "/dest" "/src" ["a.js"; "b.js"]
             (start cache_ab disk_with_notes)).1 !! "/dest/notes.txt" =
  Some "notes".
Proof.
  etransitivity.
  - apply (X14_loop_writes_only_replay_paths posix_join world_ab "/" "/dest"
             "/src" ["a.js"; "b.js"] (start cache_ab disk_with_notes)
             "/dest/notes.txt").
    intros f Hf. apply elem_of_cons in Hf as [-> | Hf].
    + vm_compute. discriminate.
    + apply list_elem_of_singleton in Hf as ->. vm_compute. discriminate.
  - reflexivity.
Defined.
